(** * 3d-red-carpet: retargeting and locomotion core of [SmartCharacter.tsx]

    A shallow embedding of the pure parts of the [SmartCharacter] component:
    the bone-name normaliser, the fuzzy bone matcher, the bone-map build, the
    clip retargeter [processClip], the scale computation of the layout effect,
    the animation-state effect and the per-frame movement / height code.

    The source file holds two revisions of the component: the single-format
    (FBX only) one, embedded in [Module Legacy], and the dual-format (GLB and
    FBX) one, embedded at top level.

    Conventions.
    - A JavaScript string is a [string] of 8-bit characters; [toLowerCase]
      and the regular-expression classes act on the ASCII range, which is
      where the source's literals live.
    - A JavaScript number is an ideal real number ([R]); rounding, NaN and
      infinities are outside the model.
    - A JavaScript [Map] is an association list in insertion order with
      unique keys. *)

From Stdlib Require Import List String Ascii Bool Arith ZArith Lia.
From Stdlib Require Import Reals Lra.
Import ListNotations.

Open Scope string_scope.

(** ** JavaScript string primitives *)

Module JsString.

Definition isUpper (c : ascii) : bool :=
  let n := nat_of_ascii c in (65 <=? n)%nat && (n <=? 90)%nat.

Definition isLowerAlpha (c : ascii) : bool :=
  let n := nat_of_ascii c in (97 <=? n)%nat && (n <=? 122)%nat.

Definition isDigit (c : ascii) : bool :=
  let n := nat_of_ascii c in (48 <=? n)%nat && (n <=? 57)%nat.

(** the class [[a-zA-Z0-9]] *)
Definition isAlnum (c : ascii) : bool :=
  isLowerAlpha c || isUpper c || isDigit c.

Definition lowerChar (c : ascii) : ascii :=
  if isUpper c then ascii_of_nat (nat_of_ascii c + 32) else c.

(** [s.toLowerCase()] *)
Fixpoint toLowerCase (s : string) : string :=
  match s with
  | EmptyString => EmptyString
  | String c t => String (lowerChar c) (toLowerCase t)
  end.

Fixpoint filterChars (p : ascii -> bool) (s : string) : string :=
  match s with
  | EmptyString => EmptyString
  | String c t => if p c then String c (filterChars p t) else filterChars p t
  end.

Fixpoint allChars (p : ascii -> bool) (s : string) : bool :=
  match s with
  | EmptyString => true
  | String c t => p c && allChars p t
  end.

Fixpoint drop (n : nat) (s : string) : string :=
  match n, s with
  | O, _ => s
  | S _, EmptyString => EmptyString
  | S k, String _ t => drop k t
  end.

(** [s.startsWith(p)] *)
Definition startsWith (s p : string) : bool := prefix p s.

(** [s.endsWith(p)] *)
Definition endsWith (s p : string) : bool :=
  (length p <=? length s)%nat && (drop (length s - length p) s =? p).

(** [s.includes(k)] *)
Fixpoint includes (s k : string) : bool :=
  startsWith s k ||
  match s with
  | EmptyString => false
  | String _ t => includes t k
  end.

(** position of the last occurrence of the character [c], if any *)
Fixpoint lastIndexOfChar (c : ascii) (s : string) : option nat :=
  match s with
  | EmptyString => None
  | String a t =>
      match lastIndexOfChar c t with
      | Some i => Some (S i)
      | None => if Ascii.eqb a c then Some O else None
      end
  end.

(** [s.lastIndexOf(c)]: [-1] when [c] does not occur *)
Definition lastIndexOf (s : string) (c : ascii) : Z :=
  match lastIndexOfChar c s with
  | Some i => Z.of_nat i
  | None => (-1)%Z
  end.

Definition clampIndex (s : string) (i : Z) : nat :=
  Z.to_nat (Z.max 0 (Z.min i (Z.of_nat (length s)))).

(** [s.substring(a, b)]: both indices are clamped to [0 .. length] and
    swapped when out of order *)
Definition jsSubstring (s : string) (a b : Z) : string :=
  let a' := clampIndex s a in
  let b' := clampIndex s b in
  let lo := Nat.min a' b' in
  let hi := Nat.max a' b' in
  substring lo (hi - lo) s.

(** [s.substring(a)] *)
Definition jsSubstringFrom (s : string) (a : Z) : string :=
  jsSubstring s a (Z.of_nat (length s)).

(** JavaScript truthiness of a string *)
Definition truthy (s : string) : bool := negb (s =? "").

End JsString.
Import JsString.

(** ** Bone Name Normalizer *)

Definition vendorPrefix : string := "mixamorig".

(** Length of the match of [/mixamorig:?_?/] anchored at the start of [s]. *)
Definition matchVendor (s : string) : option nat :=
  if startsWith s vendorPrefix then
    let r := drop 9 s in
    let a := if startsWith r ":" then 1 else 0 in
    let r' := drop a r in
    let b := if startsWith r' "_" then 1 else 0 in
    Some (9 + a + b)
  else None.

(** [s.replace(/mixamorig:?_?/g, '')]: one left-to-right pass; [skip] counts
    the characters of the current match still to be consumed. *)
Fixpoint removeVendorFrom (skip : nat) (s : string) : string :=
  match s with
  | EmptyString => EmptyString
  | String c t =>
      match skip with
      | S k => removeVendorFrom k t
      | O =>
          match matchVendor s with
          | Some (S k) => removeVendorFrom k t
          | _ => String c (removeVendorFrom 0 t)
          end
      end
  end.

Definition removeVendor (s : string) : string := removeVendorFrom 0 s.

(** the class [[:|/.]] *)
Definition isSeparator (c : ascii) : bool :=
  Ascii.eqb c ":" || Ascii.eqb c "|" || Ascii.eqb c "/" || Ascii.eqb c ".".

(** [s.split(/[:|/.]/)] *)
Fixpoint splitSeparators (s : string) : list string :=
  match s with
  | EmptyString => [EmptyString]
  | String c t =>
      if isSeparator c then EmptyString :: splitSeparators t
      else
        match splitSeparators t with
        | [] => [String c EmptyString]
        | h :: r => String c h :: r
        end
  end.

Definition normalizeBoneName (name : string) : string :=
  let temp := toLowerCase name in
  let temp := removeVendor temp in
  let parts := splitSeparators temp in
  last parts EmptyString.

(** a string still holding the vendor literal somewhere *)
Definition containsVendor (s : string) : bool := includes s vendorPrefix.

(** the character classes a canonical key stays within *)
Definition notUpper (c : ascii) : bool := negb (isUpper c).
Definition notSeparator (c : ascii) : bool := negb (isSeparator c).

(** ** The bone map: a JavaScript [Map<string, string>] *)

Definition BoneMap : Type := list (string * string).

(** [m.get(k)]: [None] stands for [undefined] *)
Fixpoint mapGet (m : BoneMap) (k : string) : option string :=
  match m with
  | [] => None
  | (k', v) :: rest => if k' =? k then Some v else mapGet rest k
  end.

(** [m.set(k, v)]: an existing key keeps its place and takes the new value,
    a new key is appended *)
Fixpoint mapSet (m : BoneMap) (k v : string) : BoneMap :=
  match m with
  | [] => [(k, v)]
  | (k', v') :: rest =>
      if k' =? k then (k', v) :: rest else (k', v') :: mapSet rest k v
  end.

(** ** The scene graph, as far as [traverse] and the bone names need it *)

#[local] Set Warnings "-register-all".

Inductive Object3D : Type :=
  | Obj (type : string) (name : string) (children : list Object3D).

Definition objType (o : Object3D) : string :=
  match o with Obj t _ _ => t end.

Definition objName (o : Object3D) : string :=
  match o with Obj _ n _ => n end.

(** [o.traverse(cb)] visits [o] and then each child's subtree in order; the
    list gives the visited objects in that order. *)
Fixpoint traverse (o : Object3D) : list Object3D :=
  match o with
  | Obj t n children =>
      Obj t n children :: flat_map traverse children
  end.

(** The callback of the bone-map build, over any key function. *)
Definition boneMapStep (canon : string -> string)
    (modelBones : BoneMap) (obj : Object3D) : BoneMap :=
  if objType obj =? "Bone" then
    let simpleName := canon (objName obj) in
    mapSet modelBones simpleName (objName obj)
  else modelBones.

Definition buildBoneMapWith (canon : string -> string)
    (model : Object3D) : BoneMap :=
  fold_left (boneMapStep canon) (traverse model) [].

(** what the build reads of an object *)
Definition typeAndName (o : Object3D) : string * string :=
  (objType o, objName o).

(** The raw name of the last bone, in visiting order, whose key is [k]. *)
Fixpoint lastBoneWithKey (canon : string -> string) (k : string)
    (objs : list Object3D) : option string :=
  match objs with
  | [] => None
  | o :: rest =>
      match lastBoneWithKey canon k rest with
      | Some n => Some n
      | None =>
          if (objType o =? "Bone") && (canon (objName o) =? k)
          then Some (objName o) else None
      end
  end.

(** the dual-format build of [modelBones] *)
Definition buildBoneMap (model : Object3D) : BoneMap :=
  buildBoneMapWith normalizeBoneName model.

(** ** Fuzzy Bone Matcher *)

(** [s.replace(/[^a-zA-Z0-9]/g, '')] *)
Definition stripNonAlnum (s : string) : string := filterChars isAlnum s.

(** The [for ... of boneMap.entries()] loop of [findBoneFuzzy]. *)
Fixpoint findBoneLoop (cleanSearch : string) (entries : BoneMap)
    : option string :=
  match entries with
  | [] => None
  | (key, val) :: rest =>
      let cleanKey := stripNonAlnum key in
      if cleanKey =? cleanSearch then Some val
      else if endsWith cleanKey cleanSearch || endsWith cleanSearch cleanKey
           then Some val
           else findBoneLoop cleanSearch rest
  end.

(** [None] stands for [null]; the result may be the empty string, which the
    callers treat as falsy. *)
Definition findBoneFuzzy (boneMap : BoneMap) (searchName : string)
    : option string :=
  let fallback :=
    let cleanSearch := stripNonAlnum searchName in
    findBoneLoop cleanSearch boneMap in
  match mapGet boneMap searchName with
  | Some direct => if truthy direct then Some direct else fallback
  | None => fallback
  end.

(** The three phases as the specification words them: exact lookup, then the
    first entry with equal stripped keys, then the first entry where one
    stripped string ends with the other. *)
Module ThreePhase.

Fixpoint firstStrippedEqual (cleanSearch : string) (entries : BoneMap)
    : option string :=
  match entries with
  | [] => None
  | (key, val) :: rest =>
      if stripNonAlnum key =? cleanSearch then Some val
      else firstStrippedEqual cleanSearch rest
  end.

Fixpoint firstContainment (cleanSearch : string) (entries : BoneMap)
    : option string :=
  match entries with
  | [] => None
  | (key, val) :: rest =>
      let cleanKey := stripNonAlnum key in
      if endsWith cleanKey cleanSearch || endsWith cleanSearch cleanKey
      then Some val
      else firstContainment cleanSearch rest
  end.

Definition findBone (boneMap : BoneMap) (searchName : string)
    : option string :=
  match mapGet boneMap searchName with
  | Some direct => Some direct
  | None =>
      let cleanSearch := stripNonAlnum searchName in
      match firstStrippedEqual cleanSearch boneMap with
      | Some v => Some v
      | None => firstContainment cleanSearch boneMap
      end
  end.

End ThreePhase.

(** JavaScript truthiness of a [string | null | undefined] *)
Definition truthyOpt (o : option string) : bool :=
  match o with
  | Some s => truthy s
  | None => false
  end.

(** [a || b] on such values *)
Definition jsOr (a b : option string) : option string :=
  if truthyOpt a then a else b.

(** ** Animation clips *)

Record KeyframeTrack : Type := mkTrack {
  trackName : string;
  times : list R;
  values : list R
}.

Record AnimationClip : Type := mkClip {
  clipName : string;
  duration : R;
  tracks : list KeyframeTrack
}.

Definition renameTrack (t : KeyframeTrack) (n : string) : KeyframeTrack :=
  mkTrack n (times t) (values t).

Definition trackNames (c : AnimationClip) : list string :=
  map trackName (tracks c).

Inductive ModelFormat : Type := GLB | FBX.

Definition isGlb (f : ModelFormat) : bool :=
  match f with GLB => true | FBX => false end.

Inductive CharState : Type := IDLE | WALK | RUN | DANCE.

Definition charStateName (s : CharState) : string :=
  match s with
  | IDLE => "IDLE" | WALK => "WALK" | RUN => "RUN" | DANCE => "DANCE"
  end.

(** the two halves of a track address, split at the last dot *)
Definition trackBoneName (t : KeyframeTrack) : string :=
  let lastDot := lastIndexOf (trackName t) "." in
  jsSubstring (trackName t) 0 lastDot.

Definition trackProperty (t : KeyframeTrack) : string :=
  let lastDot := lastIndexOf (trackName t) "." in
  jsSubstringFrom (trackName t) (lastDot + 1).

(** [`${bone}.${property}`] *)
Definition address (bone property : string) : string :=
  bone ++ "." ++ property.

(** ** Animation Retargeter, dual-format revision *)

Definition rootBoneKeywords : list string :=
  ["hips"; "root"; "pelvis"; "torso"; "spine"; "waist"].

Definition isRootBone (baseFormat : ModelFormat) (simpleBoneName : string)
    : bool :=
  existsb (fun k => includes simpleBoneName k) rootBoneKeywords ||
  (isGlb baseFormat &&
   ((simpleBoneName =? "root") || (simpleBoneName =? "hips"))).

(** The [else if (baseFormat === 'glb') ... else ...] chain of the loop body,
    taken when [targetBoneName] is falsy. *)
Definition processUnresolved (baseFormat : ModelFormat) (modelBones : BoneMap)
    (stripPosition : bool) (track : KeyframeTrack) : option KeyframeTrack :=
  let boneName := trackBoneName track in
  let property := trackProperty track in
  let simpleBoneName := normalizeBoneName boneName in
  if isGlb baseFormat then
    if (property =? "position") &&
       (includes simpleBoneName "hips" || includes simpleBoneName "root")
    then
      let rootBone := jsOr (findBoneFuzzy modelBones "hips")
                           (findBoneFuzzy modelBones "root") in
      match rootBone with
      | Some rb =>
          if truthy rb then
            if stripPosition then None
            else Some (renameTrack track (address rb property))
          else Some track
      | None => Some track
      end
    else Some track
  else Some track.

(** One iteration of the [for] loop of [processClip]: [None] when the loop
    [continue]s without pushing, [Some t] when it pushes [t].  A falsy
    [targetBoneName] ([null] or the empty string) takes the [else] chain. *)
Definition processTrack (baseFormat : ModelFormat) (modelBones : BoneMap)
    (stripPosition : bool) (track : KeyframeTrack) : option KeyframeTrack :=
  let boneName := trackBoneName track in
  let property := trackProperty track in
  let simpleBoneName := normalizeBoneName boneName in
  let targetBoneName := findBoneFuzzy modelBones simpleBoneName in
  let isRoot := isRootBone baseFormat simpleBoneName in
  match targetBoneName with
  | Some target =>
      if truthy target then
        if stripPosition && isRoot && (property =? "position") then None
        else Some (renameTrack track (address target property))
      else processUnresolved baseFormat modelBones stripPosition track
  | None => processUnresolved baseFormat modelBones stripPosition track
  end.

(** [processClip]: the clone is renamed and keeps the pushed tracks. *)
Definition processClip (baseFormat : ModelFormat) (modelBones : BoneMap)
    (originalClip : AnimationClip) (name : CharState) (stripPosition : bool)
    : AnimationClip :=
  let newTracks :=
    flat_map
      (fun track =>
         match processTrack baseFormat modelBones stripPosition track with
         | Some t => [t]
         | None => []
         end)
      (tracks originalClip) in
  mkClip (charStateName name) (duration originalClip) newTracks.

(** ** Single-format (FBX only) revision of the retargeter *)

Module Legacy.

(** a line terminator, which [.] does not match *)
Definition isLineTerminator (c : ascii) : bool :=
  Ascii.eqb c "010" || Ascii.eqb c "013".

(** the part of [s] before its first line terminator, and the rest *)
Fixpoint firstLine (s : string) : string * string :=
  match s with
  | EmptyString => (EmptyString, EmptyString)
  | String c t =>
      if isLineTerminator c then (EmptyString, s)
      else let (l, r) := firstLine t in (String c l, r)
  end.

(** [s.replace(/^.*:/, '')]: the greedy match runs from the start to the
    last colon of the first line *)
Definition stripNamespace (s : string) : string :=
  let (line, rest) := firstLine s in
  match lastIndexOfChar ":" line with
  | Some i => drop (S i) line ++ rest
  | None => s
  end.

(** [name.replace(/^.*:/, '').toLowerCase()] *)
Definition simpleName (name : string) : string :=
  toLowerCase (stripNamespace name).

Definition buildBoneMap (model : Object3D) : BoneMap :=
  buildBoneMapWith simpleName model.

Definition rootBoneKeywords : list string :=
  ["hips"; "root"; "pelvis"; "torso"; "spine"].

(** The loop that fills [newValues]: every X and Z component is zero, every
    Y component is copied; a trailing incomplete triple is cut at the
    array's length. *)
Fixpoint zeroXZ (values : list R) : list R :=
  match values with
  | _ :: y :: _ :: rest => 0%R :: y :: 0%R :: zeroXZ rest
  | [_; y] => [0%R; y]
  | [_] => [0%R]
  | [] => []
  end.

(** One call of the [forEach] callback of [processClip]. *)
Definition processTrack (modelBones : BoneMap) (stripPosition : bool)
    (track : KeyframeTrack) : option KeyframeTrack :=
  let boneName := trackBoneName track in
  let property := trackProperty track in
  let simpleBoneName := simpleName boneName in
  let targetBoneName := mapGet modelBones simpleBoneName in
  let isRootBone :=
    existsb (fun k => includes simpleBoneName k) rootBoneKeywords in
  match targetBoneName with
  | Some target =>
      if truthy target then
        if stripPosition && isRootBone && (property =? "position") then
          Some (mkTrack (address target property) (times track)
                        (zeroXZ (values track)))
        else Some (renameTrack track (address target property))
      else None
  | None => None
  end.

Definition processClip (modelBones : BoneMap)
    (originalClip : AnimationClip) (name : CharState) (stripPosition : bool)
    : AnimationClip :=
  let newTracks :=
    flat_map
      (fun track =>
         match processTrack modelBones stripPosition track with
         | Some t => [t]
         | None => []
         end)
      (tracks originalClip) in
  mkClip (charStateName name) (duration originalClip) newTracks.

End Legacy.

(** ** Vectors and boxes of three.js, over ideal reals *)

Open Scope R_scope.

Record Vector3 : Type := vec3 { vx : R; vy : R; vz : R }.

Module Vec.

(** [a.length()] *)
Definition length (a : Vector3) : R :=
  sqrt (vx a * vx a + vy a * vy a + vz a * vz a).

(** [a.distanceTo(b)] *)
Definition distanceTo (a b : Vector3) : R :=
  let dx := vx a - vx b in
  let dy := vy a - vy b in
  let dz := vz a - vz b in
  sqrt (dx * dx + dy * dy + dz * dz).

(** [subVectors(a, b)] *)
Definition subVectors (a b : Vector3) : Vector3 :=
  vec3 (vx a - vx b) (vy a - vy b) (vz a - vz b).

Definition add (a b : Vector3) : Vector3 :=
  vec3 (vx a + vx b) (vy a + vy b) (vz a + vz b).

Definition multiplyScalar (a : Vector3) (s : R) : Vector3 :=
  vec3 (vx a * s) (vy a * s) (vz a * s).

(** [a.normalize()], that is [a.divideScalar(a.length() || 1)] *)
Definition normalize (a : Vector3) : Vector3 :=
  let len := length a in
  let d := if Req_dec_T len 0 then 1 else len in
  multiplyScalar a (1 / d).

(** [a.lerp(b, alpha)] *)
Definition lerp (a b : Vector3) (alpha : R) : Vector3 :=
  vec3 (vx a + (vx b - vx a) * alpha)
       (vy a + (vy b - vy a) * alpha)
       (vz a + (vz b - vz a) * alpha).

End Vec.

(** [THREE.MathUtils.clamp(value, min, max)] *)
Definition clamp (value lo hi : R) : R := Rmax lo (Rmin hi value).

Record Box3 : Type := box3 { bmin : Vector3; bmax : Vector3 }.

Definition boxIsEmpty (b : Box3) : bool :=
  if Rlt_dec (vx (bmax b)) (vx (bmin b)) then true
  else if Rlt_dec (vy (bmax b)) (vy (bmin b)) then true
  else if Rlt_dec (vz (bmax b)) (vz (bmin b)) then true
  else false.

(** [box.getSize(size)] *)
Definition getSize (b : Box3) : Vector3 :=
  if boxIsEmpty b then vec3 0 0 0 else Vec.subVectors (bmax b) (bmin b).

(** [box.getCenter(center)] *)
Definition getCenter (b : Box3) : Vector3 :=
  if boxIsEmpty b then vec3 0 0 0
  else Vec.multiplyScalar (Vec.add (bmin b) (bmax b)) (1 / 2).

(** ** Model Normalizer *)

(** The dual-format layout effect.  [skinned] is the world box of the first
    skinned mesh, when there is one and its geometry has a bounding box;
    [whole] is the box of the whole hierarchy.  The result is the scale state
    and the model position after the effect; the position was reset to the
    origin at the effect's start. *)
Definition layoutEffect (baseFormat : ModelFormat)
    (mainMesh : option (option Box3)) (whole : Box3) (modelScale : R)
    : R * Vector3 :=
  let origin := vec3 0 0 0 in
  match mainMesh with
  | Some geoBox =>
      match geoBox with
      | Some worldBox =>
          let size := getSize worldBox in
          if Rgt_dec (vy size) 0.001 then
            let scaleFactor := 1.8 / vy size in
            if isGlb baseFormat then
              let center := getCenter worldBox in
              (scaleFactor,
               vec3 (- vx center * scaleFactor)
                    (- vy (bmin worldBox) * scaleFactor)
                    (- vz center * scaleFactor))
            else (scaleFactor, origin)
          else (modelScale, origin)
      | None => (modelScale, origin)
      end
  | None =>
      let size := getSize whole in
      if Rgt_dec (vy size) 0.001 then
        let scaleFactor := 1.8 / vy size in
        if isGlb baseFormat then
          (scaleFactor, vec3 0 (- vy (bmin whole) * scaleFactor) 0)
        else (scaleFactor, origin)
      else (modelScale, origin)
  end.

(** ** Animation-state effect *)

(** The state effect: the state after the effect ran with the given props and
    current state.  [targetPos] is [None] for [null]. *)
Definition stateEffect (targetPos : option Vector3)
    (isRunning isCelebrating : bool) (charState : CharState) : CharState :=
  if isCelebrating then DANCE
  else
    match targetPos with
    | Some _ => if isRunning then RUN else WALK
    | None =>
        match charState with
        | DANCE => charState
        | _ => IDLE
        end
    end.

(** ** Frame loop: movement and height *)

Record StairConfig : Type := stairs {
  startZ : R;
  slopeEndZ : R;
  wallZ : R;
  height : R
}.

Record Props : Type := mkProps {
  targetPos : option Vector3;
  isRunning : bool;
  isCelebrating : bool;
  stairConfig : StairConfig
}.

(** what a frame calls besides moving the group *)
Inductive Effect : Type :=
  | OnStop (finalPos : Vector3)
  | SetCharState (s : CharState).

Record Frame : Type := mkFrame {
  group : option Vector3;     (* position of [group.current], if mounted *)
  cameraPosition : Vector3
}.

Definition CAM_OFFSET : Vector3 := vec3 0 3 6.
Definition CELEBRATION_OFFSET : Vector3 := vec3 0 5 16.

(** Steps 1 and 2 of the frame callback: the celebration override or the
    movement towards the target. *)
Definition moveStep (p : Props) (delta : R) (currentPos : Vector3)
    : Vector3 * list Effect :=
  if isCelebrating p then
    let cfg := stairConfig p in
    let centerZ := (slopeEndZ cfg + wallZ cfg) / 2 in
    let tempVec3 := vec3 0 (height cfg) centerZ in
    (Vec.lerp currentPos tempVec3 (Rmin 0.05 (delta * 0.5)), [])
  else
    match targetPos p with
    | Some target =>
        let tempVec3 := vec3 (vx target) 0 (vz target) in
        let flatCurrent := vec3 (vx currentPos) 0 (vz currentPos) in
        let dist := Vec.distanceTo flatCurrent tempVec3 in
        if Rlt_dec dist 0.2 then
          (currentPos, [OnStop currentPos; SetCharState IDLE])
        else
          let dir := Vec.normalize (Vec.subVectors tempVec3 flatCurrent) in
          let speed := if isRunning p then 5.0 else 2.0 in
          let moveDist := Rmin (speed * delta) 0.5 in
          (vec3 (vx currentPos + vx dir * moveDist)
                (vy currentPos)
                (vz currentPos + vz dir * moveDist), [])
    | None => (currentPos, [])
    end.

(** Step 3: the height of the stairs or of the platform at [z]. *)
Definition heightAt (cfg : StairConfig) (z : R) : R :=
  if Rlt_dec z (slopeEndZ cfg) then height cfg
  else
    let slopeLength := startZ cfg - slopeEndZ cfg in
    let progress := (startZ cfg - z) / slopeLength in
    let clampedProgress := clamp progress 0 1 in
    clampedProgress * height cfg.

Definition heightStep (p : Props) (currentPos : Vector3) : Vector3 :=
  if isCelebrating p then currentPos
  else vec3 (vx currentPos) (heightAt (stairConfig p) (vz currentPos))
            (vz currentPos).

(** Step 4, the camera position (its orientation and the character's heading
    are quaternions that nothing below reads). *)
Definition cameraStep (p : Props) (delta : R) (currentPos camera : Vector3)
    : Vector3 :=
  let activeOffset :=
    if isCelebrating p then CELEBRATION_OFFSET else CAM_OFFSET in
  Vec.lerp camera (Vec.add currentPos activeOffset)
           (Rmin (if isCelebrating p then 0.02 else 0.05) (delta * 0.5)).

(** The callback given to [useFrame]. *)
Definition useFrame (p : Props) (delta : R) (f : Frame)
    : Frame * list Effect :=
  match group f with
  | None => (f, [])
  | Some currentPos =>
      let (moved, effects) := moveStep p delta currentPos in
      let placed := heightStep p moved in
      (mkFrame (Some placed) (cameraStep p delta placed (cameraPosition f)),
       effects)
  end.

(** The Terrain Height Function in the specification's words: the platform
    height beyond the ramp end, else the clamped progress times the platform
    height. *)
Definition HeightSpec (rampStartZ rampEndZ platformHeight z : R) : R :=
  if Rlt_dec z rampEndZ then platformHeight
  else
    Rmax 0 (Rmin 1 ((rampStartZ - z) / (rampStartZ - rampEndZ)))
    * platformHeight.

Module LegacyScale.

(** The single-format layout effect: the scale state after it, given the
    box of the model and the scale state before. *)
Definition layoutEffect (box : Box3) (modelScale : R) : R :=
  let size := getSize box in
  if Rgt_dec (vy size) 0.001 then 1.8 / vy size else modelScale.

End LegacyScale.

(** ** The rest of the component *)

(** [getAnimations]: the [animations] array of a loaded asset, or the empty
    array when the asset has none. *)
Record Asset : Type := mkAsset {
  animations : option (list AnimationClip)
}.

Definition getAnimations (model : Asset) : list AnimationClip :=
  match animations model with
  | Some clips => clips
  | None => []
  end.

(** [if (anims[0]) clips.push(processClip(anims[0], name, shouldStrip))] *)
Definition pushFirst (baseFormat : ModelFormat) (modelBones : BoneMap)
    (anims : list AnimationClip) (name : CharState)
    (clips : list AnimationClip) : list AnimationClip :=
  match anims with
  | first :: _ => clips ++ [processClip baseFormat modelBones first name true]
  | [] => clips
  end.

(** The [animations] memo of the dual-format revision. *)
Definition buildAnimations (baseFormat : ModelFormat) (model : Object3D)
    (idleModel walkModel runModel danceModel : Asset) : list AnimationClip :=
  let modelBones := buildBoneMap model in
  let clips := [] in
  let clips := pushFirst baseFormat modelBones (getAnimations idleModel) IDLE clips in
  let clips := pushFirst baseFormat modelBones (getAnimations walkModel) WALK clips in
  let clips := pushFirst baseFormat modelBones (getAnimations runModel) RUN clips in
  pushFirst baseFormat modelBones (getAnimations danceModel) DANCE clips.

(** The pointer handler of the character: what a click on the model calls. *)
Definition handlePointerDown (p : Props) (f : Frame) (charState : CharState)
    : list Effect :=
  if isCelebrating p then []
  else
    match targetPos p with
    | Some _ =>
        [OnStop (match group f with
                 | Some position => position
                 | None => vec3 0 0 0
                 end);
         SetCharState IDLE]
    | None =>
        match charState with
        | DANCE => [SetCharState IDLE]
        | _ => [SetCharState DANCE]
        end
    end.

(** the state after the [setCharState] calls among the effects *)
Fixpoint applyEffects (effects : list Effect) (charState : CharState)
    : CharState :=
  match effects with
  | [] => charState
  | SetCharState s :: rest => applyEffects rest s
  | OnStop _ :: rest => applyEffects rest charState
  end.

Definition firesStop (effects : list Effect) : bool :=
  existsb (fun e => match e with OnStop _ => true | SetCharState _ => false end)
          effects.

(** [n] frames in a row with the same props and the same [delta] *)
Fixpoint framesAfter (p : Props) (delta : R) (n : nat) (f : Frame) : Frame :=
  match n with
  | O => f
  | S k => framesAfter p delta k (fst (useFrame p delta f))
  end.

(** whether one of the next [n] frames calls [onStop] *)
Fixpoint stopsWithin (p : Props) (delta : R) (n : nat) (f : Frame) : bool :=
  match n with
  | O => false
  | S k =>
      firesStop (snd (useFrame p delta f))
      || stopsWithin p delta k (fst (useFrame p delta f))
  end.

(** ** The scene container, as far as it drives the character *)

Module SceneContainer.

Definition STAIR_START_Z : R := 8.
Definition SLOPE_END_Z : R := -4.
Definition WALL_Z : R := -12.
Definition STAIR_HEIGHT : R := 5.

Definition SLOPE_LENGTH : R := STAIR_START_Z - SLOPE_END_Z.
Definition PLATFORM_LENGTH : R := SLOPE_END_Z - WALL_Z.

Definition CARPET_WIDTH_LIMIT : R := 2.2.

(** the [stairConfig] prop handed to the character *)
Definition stairConfig : StairConfig :=
  stairs STAIR_START_Z SLOPE_END_Z WALL_Z STAIR_HEIGHT.

(** [getRestrictedPoint], on the point of the pointer event *)
Definition getRestrictedPoint (point : Vector3) : Vector3 :=
  vec3 (clamp (vx point) (- CARPET_WIDTH_LIMIT) CARPET_WIDTH_LIMIT)
       (vy point)
       (clamp (vz point) (WALL_Z + 1) (STAIR_START_Z + 2)).

(** white space and line terminators among the 8-bit characters *)
Definition isWhiteSpace (c : ascii) : bool :=
  let n := nat_of_ascii c in
  ((9 <=? n)%nat && (n <=? 13)%nat) || (n =? 32)%nat || (n =? 160)%nat.

Fixpoint trimStart (s : string) : string :=
  match s with
  | EmptyString => EmptyString
  | String c t => if isWhiteSpace c then trimStart t else s
  end.

Fixpoint trimEnd (s : string) : string :=
  match s with
  | EmptyString => EmptyString
  | String c t =>
      match trimEnd t with
      | EmptyString => if isWhiteSpace c then EmptyString
                       else String c EmptyString
      | t' => String c t'
      end
  end.

(** [s.trim()] *)
Definition trim (s : string) : string := trimEnd (trimStart s).

Record State : Type := mkState {
  targetPos : option Vector3;
  isRunning : bool;
  showInput : bool;
  signature : string;
  isCelebrating : bool;
  inputValue : string
}.


Definition submitSignature (s : State) : State :=
  if truthy (trim (inputValue s)) then
    mkState (targetPos s) (isRunning s) false (trim (inputValue s)) true
            (inputValue s)
  else s.

(** The staircase. *)
Definition stepCount : nat := 24.
Definition stepDepth : R := SLOPE_LENGTH / INR stepCount.
Definition stepHeight : R := STAIR_HEIGHT / INR stepCount.

Record Step : Type := mkStep { position : Vector3; args : Vector3 }.

Definition step (i : nat) : Step :=
  let z := STAIR_START_Z - (INR i * stepDepth) - (stepDepth / 2) in
  let y := (INR i * stepHeight) + (stepHeight / 2) in
  mkStep (vec3 0 y z) (vec3 5 stepHeight stepDepth).

Definition steps : list Step := map step (seq 0 stepCount).

Definition slopePostCount : nat := 6.
Definition platformPostCount : nat := 4.

Definition slopePost (i : nat) : Vector3 * Vector3 :=
  let progress := INR i / (INR slopePostCount - 1) in
  let z := STAIR_START_Z - (progress * SLOPE_LENGTH) in
  let y := progress * STAIR_HEIGHT in
  (vec3 (-2.5) y z, vec3 2.5 y z).

Definition platformPost (i : nat) : Vector3 * Vector3 :=
  let platformLen := Rabs (WALL_Z - SLOPE_END_Z) in
  let dist := (INR i / (INR platformPostCount - 1)) * platformLen in
  let z := SLOPE_END_Z - dist in
  (vec3 (-2.5) STAIR_HEIGHT z, vec3 2.5 STAIR_HEIGHT z).

(** the left and right stanchions, up the slope and along the platform *)
Definition posts : list (Vector3 * Vector3) :=
  (map slopePost (seq 0 slopePostCount)
   ++ map platformPost (seq 1 (platformPostCount - 1)))%list.

(** The audience: the depth drawn from a random number [r] in [0, 1) and the
    height given to a crowd member standing at depth [z]. *)
Definition crowdZ (r : R) : R :=
  STAIR_START_Z - (r * (STAIR_START_Z - WALL_Z)).

Definition crowdY (z : R) : R :=
  if Rlt_dec z SLOPE_END_Z then STAIR_HEIGHT
  else
    let progress := (STAIR_START_Z - z) / SLOPE_LENGTH in
    progress * STAIR_HEIGHT.

End SceneContainer.

(** ** Auxiliary notions used by the statements below *)

(** The GLB smart fallback of [processClip]: the root bone it finds for an
    unresolved position track of a hips or root bone, if any. *)
Definition smartFallback (modelBones : BoneMap) (track : KeyframeTrack)
    : option string :=
  let simpleBoneName := normalizeBoneName (trackBoneName track) in
  if (trackProperty track =? "position") &&
     (includes simpleBoneName "hips" || includes simpleBoneName "root")
  then
    match jsOr (findBoneFuzzy modelBones "hips")
               (findBoneFuzzy modelBones "root") with
    | Some rb => if truthy rb then Some rb else None
    | None => None
    end
  else None.

(** What holds of a bone map under construction over the key function
    [canon]: distinct keys, each the key of its value, each value a bone
    among [objs]. *)
Definition wellKeyed (canon : string -> string) (objs : list Object3D)
    (m : BoneMap) : Prop :=
  NoDup (map fst m) /\
  forall k v, In (k, v) m ->
    k = canon v /\
    exists o, In o objs /\ objType o = "Bone" /\ objName o = v.

(** a character other than the dot that splits a track address *)
Definition notDot (c : ascii) : bool := negb (Ascii.eqb c ".").

(** distance in the X/Z plane *)
Definition horizontalDistance (a b : Vector3) : R :=
  sqrt ((vx a - vx b) * (vx a - vx b) + (vz a - vz b) * (vz a - vz b)).

(** how far a moving frame steps *)
Definition moveAmount (running : bool) (delta : R) : R :=
  Rmin ((if running then 5.0 else 2.0) * delta) 0.5.

(** the position a moving frame leaves the group at *)
Definition steppedPosition (target : Vector3) (running : bool)
    (cfg : StairConfig) (delta : R) (currentPos : Vector3) : Vector3 :=
  let d := horizontalDistance currentPos target in
  let x := vx currentPos
           + (vx target - vx currentPos) * (1 / d) * moveAmount running delta in
  let z := vz currentPos
           + (vz target - vz currentPos) * (1 / d) * moveAmount running delta in
  vec3 x (heightAt cfg z) z.

(** Sample data. *)
Definition armSkeleton : Object3D :=
  Obj "Bone" "Arm" [Obj "Bone" "LeftArm" []].

Definition twoHipsModel : Object3D :=
  Obj "Group" "Armature" [Obj "Bone" "mixamorig:Hips" [Obj "Bone" "Hips" []]].

Definition hipsMap : BoneMap := [("hips", "Character_Hips")].

Definition hipsPosition : KeyframeTrack :=
  mkTrack "hips.position" [0; 1] [1; 2; 3; 4; 5; 6].

Definition handRotation : KeyframeTrack :=
  mkTrack "LeftHand.quaternion" [0] [0; 0; 0; 1].

Definition redCarpet : StairConfig := stairs 8 (-4) (-12) 5.

(** * Properties *)

(** ** Strings *)

Section StringFacts.

Open Scope nat_scope.

Lemma lowerChar_notUpper (c : ascii) : notUpper (lowerChar c) = true.
Proof.
  destruct c as [[] [] [] [] [] [] [] []]; reflexivity.
Qed.

Lemma lowerChar_fixed (c : ascii) : notUpper c = true -> lowerChar c = c.
Proof.
  unfold notUpper, lowerChar. destruct (isUpper c); [discriminate | reflexivity].
Qed.

Lemma toLowerCase_notUpper (s : string) :
  allChars notUpper (toLowerCase s) = true.
Proof.
  induction s as [| c t IH]; simpl; [reflexivity |].
  now rewrite lowerChar_notUpper, IH.
Qed.

Lemma toLowerCase_fixed (s : string) :
  allChars notUpper s = true -> toLowerCase s = s.
Proof.
  induction s as [| c t IH]; simpl; [reflexivity |].
  intros H. apply andb_true_iff in H as [Hc Ht].
  now rewrite lowerChar_fixed, IH.
Qed.


Lemma matchVendor_positive (s : string) (n : nat) :
  matchVendor s = Some n -> exists k, n = S k.
Proof.
  unfold matchVendor. destruct (startsWith s vendorPrefix); [| discriminate].
  intros H. injection H as <-. eexists. simpl. reflexivity.
Qed.

Lemma removeVendorFrom_allChars (p : ascii -> bool) (s : string) :
  allChars p s = true ->
  forall skip, allChars p (removeVendorFrom skip s) = true.
Proof.
  induction s as [| c t IH]; intros H skip; [reflexivity |].
  simpl in H. apply andb_true_iff in H as [Hc Ht].
  cbn [removeVendorFrom]. destruct skip as [| k]; [| now apply IH].
  destruct (matchVendor (String c t)) as [[| k] |].
  - simpl. now rewrite Hc, IH.
  - now apply IH.
  - simpl. now rewrite Hc, IH.
Qed.

Lemma removeVendorFrom_length (s : string) :
  forall skip, length (removeVendorFrom skip s) <= length s.
Proof.
  induction s as [| c t IH]; intros skip; [simpl; lia |].
  cbn [removeVendorFrom]. destruct skip as [| k].
  - destruct (matchVendor (String c t)) as [[| k] |]; simpl;
      try (specialize (IH 0); lia).
    specialize (IH k); lia.
  - specialize (IH k). simpl. lia.
Qed.

Lemma includes_cons (c : ascii) (t k : string) :
  includes (String c t) k = startsWith (String c t) k || includes t k.
Proof. reflexivity. Qed.

Lemma removeVendor_fixed (s : string) :
  containsVendor s = false -> removeVendor s = s.
Proof.
  unfold removeVendor, containsVendor.
  induction s as [| c t IH]; intros H; [reflexivity |].
  rewrite includes_cons in H. apply orb_false_iff in H as [Hhead Htail].
  cbn [removeVendorFrom]. unfold matchVendor. rewrite Hhead.
  now rewrite IH.
Qed.

Lemma removeVendor_shrinks (s : string) :
  containsVendor s = true -> length (removeVendor s) < length s.
Proof.
  unfold removeVendor, containsVendor.
  induction s as [| c t IH]; intros H; [discriminate |].
  rewrite includes_cons in H. cbn [removeVendorFrom].
  destruct (matchVendor (String c t)) as [n |] eqn:Hm.
  - destruct (matchVendor_positive _ _ Hm) as [k ->].
    pose proof (removeVendorFrom_length t k). simpl. lia.
  - unfold matchVendor in Hm.
    destruct (startsWith (String c t) vendorPrefix); [discriminate |].
    simpl in H. specialize (IH H). simpl. lia.
Qed.

Lemma splitSeparators_nonempty (s : string) : splitSeparators s <> [].
Proof.
  destruct s as [| c t]; simpl; [discriminate |].
  destruct (isSeparator c); [discriminate |].
  destruct (splitSeparators t); discriminate.
Qed.

Lemma splitSeparators_Forall (P : string -> Prop) (s : string) :
  P EmptyString ->
  (forall c t, isSeparator c = false -> P t -> P (String c t)) ->
  Forall P (splitSeparators s).
Proof.
  intros Hnil Hcons. induction s as [| c t IH]; simpl.
  - constructor; [assumption | constructor].
  - destruct (isSeparator c) eqn:Hc.
    + constructor; assumption.
    + destruct (splitSeparators t) as [| h r].
      * constructor; [| constructor]. now apply Hcons.
      * inversion IH; subst. constructor; [| assumption]. now apply Hcons.
Qed.

Lemma splitSeparators_allChars (p : ascii -> bool) (s : string) :
  allChars p s = true ->
  Forall (fun seg => allChars p seg = true) (splitSeparators s).
Proof.
  induction s as [| c t IH]; simpl; intros H.
  - constructor; [reflexivity | constructor].
  - apply andb_true_iff in H as [Hc Ht]. specialize (IH Ht).
    destruct (isSeparator c).
    + constructor; [reflexivity | assumption].
    + destruct (splitSeparators t) as [| h r].
      * constructor; [| constructor]. simpl. now rewrite Hc.
      * inversion IH; subst. constructor; [| assumption].
        simpl. now rewrite Hc.
Qed.

Lemma splitSeparators_length (s : string) :
  Forall (fun seg => length seg <= length s) (splitSeparators s).
Proof.
  induction s as [| c t IH]; simpl.
  - constructor; [simpl; lia | constructor].
  - destruct (isSeparator c).
    + constructor; [simpl; lia |].
      eapply Forall_impl; [| exact IH]. simpl. intros; lia.
    + destruct (splitSeparators t) as [| h r].
      * constructor; [simpl; lia | constructor].
      * inversion IH; subst. constructor; [simpl; lia |].
        eapply Forall_impl; [| eassumption]. simpl. intros; lia.
Qed.

Lemma last_Forall {A : Type} (P : A -> Prop) (l : list A) (d : A) :
  l <> [] -> Forall P l -> P (last l d).
Proof.
  intros Hne HF. induction HF as [| a l Ha HF IH]; [congruence |].
  destruct l as [| b l']; [exact Ha |].
  change (P (last (b :: l') d)). apply IH. discriminate.
Qed.

Lemma splitSeparators_single (s : string) :
  allChars notSeparator s = true -> splitSeparators s = [s].
Proof.
  induction s as [| c t IH]; simpl; intros H; [reflexivity |].
  apply andb_true_iff in H as [Hc Ht]. unfold notSeparator in Hc.
  apply negb_true_iff in Hc. rewrite Hc, (IH Ht). reflexivity.
Qed.

(** what every canonical key looks like *)
Lemma normalizeBoneName_shape (x : string) :
  allChars notUpper (normalizeBoneName x) = true /\
  allChars notSeparator (normalizeBoneName x) = true.
Proof.
  unfold normalizeBoneName. split.
  - apply last_Forall; [apply splitSeparators_nonempty |].
    apply splitSeparators_allChars.
    apply removeVendorFrom_allChars, toLowerCase_notUpper.
  - apply last_Forall; [apply splitSeparators_nonempty |].
    apply splitSeparators_Forall; [reflexivity |].
    intros c t Hc Ht. simpl. unfold notSeparator at 1. now rewrite Hc.
Qed.

Lemma normalizeBoneName_length (x : string) :
  length (normalizeBoneName x) <= length (removeVendor (toLowerCase x)).
Proof.
  unfold normalizeBoneName.
  apply (last_Forall (fun seg => length seg <= _));
    [apply splitSeparators_nonempty | apply splitSeparators_length].
Qed.

(** a canonical key free of the vendor literal is a fixed point *)
Lemma normalizeBoneName_fixed (y : string) :
  allChars notUpper y = true ->
  allChars notSeparator y = true ->
  containsVendor y = false ->
  normalizeBoneName y = y.
Proof.
  intros Hlow Hsep Hven. unfold normalizeBoneName.
  rewrite (toLowerCase_fixed _ Hlow), (removeVendor_fixed _ Hven),
    (splitSeparators_single _ Hsep). reflexivity.
Qed.

(** a string holding the vendor literal gets strictly shorter *)
Lemma normalizeBoneName_shrinks (y : string) :
  allChars notUpper y = true ->
  containsVendor y = true ->
  length (normalizeBoneName y) < length y.
Proof.
  intros Hlow Hven. pose proof (normalizeBoneName_length y) as H.
  rewrite (toLowerCase_fixed _ Hlow) in H.
  pose proof (removeVendor_shrinks _ Hven). lia.
Qed.

End StringFacts.

(** ** C8: canonicalisation *)

(** C8, as stated, fails: removing the inner occurrence of the vendor
    literal from ["mixamixamorigmorig"] splices a new occurrence together, so
    the first pass yields ["mixamorig"] and the second pass the empty
    string. *)
Lemma normalizeBoneName_not_idempotent :
  normalizeBoneName "mixamixamorigmorig" = "mixamorig" /\
  normalizeBoneName (normalizeBoneName "mixamixamorigmorig") = "" /\
  ~ (forall x : string,
       normalizeBoneName (normalizeBoneName x) = normalizeBoneName x).
Proof.
  split; [reflexivity |]. split; [reflexivity |].
  intros H. specialize (H "mixamixamorigmorig"). discriminate H.
Qed.

(** C8 (amended): [normalizeBoneName (normalizeBoneName x)] equals
    [normalizeBoneName x] exactly when the canonical key
    [normalizeBoneName x] no longer contains the literal ["mixamorig"]. *)
Theorem normalizeBoneName_idempotent_iff (x : string) :
  normalizeBoneName (normalizeBoneName x) = normalizeBoneName x <->
  containsVendor (normalizeBoneName x) = false.
Proof.
  destruct (normalizeBoneName_shape x) as [Hlow Hsep]. split.
  - intros Heq. destruct (containsVendor (normalizeBoneName x)) eqn:Hven;
      [| reflexivity].
    pose proof (normalizeBoneName_shrinks _ Hlow Hven) as Hlt.
    rewrite Heq in Hlt. lia.
  - intros Hven. now apply normalizeBoneName_fixed.
Qed.

Lemma normalizeBoneName_idempotent_iff_witness :
  containsVendor (normalizeBoneName "Armature|mixamorig:LeftArm") = false /\
  normalizeBoneName (normalizeBoneName "Armature|mixamorig:LeftArm")
  = normalizeBoneName "Armature|mixamorig:LeftArm".
Proof.
  split; [reflexivity |].
  apply (proj2 (normalizeBoneName_idempotent_iff "Armature|mixamorig:LeftArm")).
  reflexivity.
Defined.

(** ** C2: the fuzzy matcher *)

Section MatcherFacts.

Open Scope nat_scope.

Lemma drop_zero (s : string) : drop 0 s = s.
Proof. destruct s; reflexivity. Qed.

Lemma endsWith_refl (s : string) : endsWith s s = true.
Proof.
  unfold endsWith. rewrite Nat.leb_refl, Nat.sub_diag, drop_zero.
  apply String.eqb_refl.
Qed.

(** The equality test of the loop is subsumed by the suffix test that
    follows it: the loop is one pass returning the first entry whose
    stripped key is suffix-related to the stripped search key. *)
Lemma findBoneLoop_single_pass (cleanSearch : string) (entries : BoneMap) :
  findBoneLoop cleanSearch entries
  = ThreePhase.firstContainment cleanSearch entries.
Proof.
  induction entries as [| [key val] rest IH]; simpl; [reflexivity |].
  destruct (stripNonAlnum key =? cleanSearch)%string eqn:Heq.
  - apply String.eqb_eq in Heq. rewrite Heq, endsWith_refl. reflexivity.
  - rewrite IH. reflexivity.
Qed.

(** an exact hit on a non-empty bone name wins *)
Lemma findBoneFuzzy_exact (boneMap : BoneMap) (searchName direct : string) :
  mapGet boneMap searchName = Some direct ->
  truthy direct = true ->
  findBoneFuzzy boneMap searchName = Some direct.
Proof.
  intros Hget Ht. unfold findBoneFuzzy. now rewrite Hget, Ht.
Qed.

(** without an exact hit, the result is that of the single pass *)
Lemma findBoneFuzzy_miss (boneMap : BoneMap) (searchName : string) :
  mapGet boneMap searchName = None ->
  findBoneFuzzy boneMap searchName
  = ThreePhase.firstContainment (stripNonAlnum searchName) boneMap.
Proof.
  intros Hget. unfold findBoneFuzzy. rewrite Hget.
  apply findBoneLoop_single_pass.
Qed.

End MatcherFacts.

(** the scenario of the specification: exact lookup fails, the stripped
    containment finds the entry *)
Lemma findBoneFuzzy_mixamorighips :
  mapGet [("mixamorighips", "Hips")] "hips" = None /\
  findBoneFuzzy [("mixamorighips", "Hips")] "hips" = Some "Hips".
Proof. split; reflexivity. Qed.

(** C2: on the skeleton [Arm] > [LeftArm] and the search key ["left_arm"],
    the loop returns at the first entry, whose stripped key ["arm"] is only a
    suffix of ["leftarm"], and never reaches the second entry, whose stripped
    key equals it; the three ordered phases of the claim give ["LeftArm"]. *)
Theorem findBoneFuzzy_containment_before_equality :
  buildBoneMap armSkeleton = [("arm", "Arm"); ("leftarm", "LeftArm")] /\
  findBoneFuzzy (buildBoneMap armSkeleton) "left_arm" = Some "Arm" /\
  ThreePhase.findBone (buildBoneMap armSkeleton) "left_arm" = Some "LeftArm".
Proof. repeat split; reflexivity. Qed.

(** ** C10: the bone-map build *)

Section BoneMapFacts.

Variable canon : string -> string.

Lemma mapGet_mapSet (m : BoneMap) (k v k' : string) :
  mapGet (mapSet m k v) k' = if (k =? k')%string then Some v else mapGet m k'.
Proof.
  induction m as [| [k0 v0] rest IH]; simpl.
  - reflexivity.
  - destruct (k0 =? k)%string eqn:H0.
    + apply String.eqb_eq in H0. subst k0. simpl.
      destruct (k =? k')%string; reflexivity.
    + simpl. rewrite IH.
      destruct (k0 =? k')%string eqn:H1; [| reflexivity].
      apply String.eqb_eq in H1. subst k'.
      rewrite String.eqb_sym, H0. reflexivity.
Qed.

Lemma mapGet_boneMapStep (m : BoneMap) (o : Object3D) (k : string) :
  mapGet (boneMapStep canon m o) k
  = if (objType o =? "Bone")%string && (canon (objName o) =? k)%string
    then Some (objName o) else mapGet m k.
Proof.
  unfold boneMapStep. destruct (objType o =? "Bone")%string; simpl.
  - apply mapGet_mapSet.
  - reflexivity.
Qed.

Lemma mapGet_fold (objs : list Object3D) :
  forall (m : BoneMap) (k : string),
    mapGet (fold_left (boneMapStep canon) objs m) k
    = match lastBoneWithKey canon k objs with
      | Some n => Some n
      | None => mapGet m k
      end.
Proof.
  induction objs as [| o rest IH]; intros m k; simpl; [reflexivity |].
  rewrite IH, mapGet_boneMapStep.
  destruct (lastBoneWithKey canon k rest); [reflexivity |].
  destruct ((objType o =? "Bone")%string && (canon (objName o) =? k)%string);
    reflexivity.
Qed.

Lemma lastBoneWithKey_none (k : string) (objs : list Object3D) :
  (forall o, In o objs -> objType o = "Bone" -> canon (objName o) <> k) ->
  lastBoneWithKey canon k objs = None.
Proof.
  induction objs as [| o rest IH]; intros H; simpl; [reflexivity |].
  rewrite IH by (intros o' Hin; apply H; now right).
  destruct (objType o =? "Bone")%string eqn:Ht; [| reflexivity].
  destruct (canon (objName o) =? k)%string eqn:Hk; [| reflexivity].
  apply String.eqb_eq in Ht, Hk. exfalso. apply (H o); auto. now left.
Qed.

Lemma lastBoneWithKey_app (k : string) (pre post : list Object3D) :
  lastBoneWithKey canon k (pre ++ post)%list
  = match lastBoneWithKey canon k post with
    | Some n => Some n
    | None => lastBoneWithKey canon k pre
    end.
Proof.
  induction pre as [| o rest IH]; simpl.
  - destruct (lastBoneWithKey canon k post); reflexivity.
  - rewrite IH. destruct (lastBoneWithKey canon k post); reflexivity.
Qed.

(** the entry of a key is the raw name of the last bone visited with it *)
Lemma buildBoneMapWith_last_wins (model : Object3D)
    (pre post : list Object3D) (b : Object3D) :
  traverse model = (pre ++ b :: post)%list ->
  objType b = "Bone" ->
  (forall o, In o post -> objType o = "Bone" ->
             canon (objName o) <> canon (objName b)) ->
  mapGet (buildBoneMapWith canon model) (canon (objName b))
  = Some (objName b).
Proof.
  intros Htr Hb Hpost. unfold buildBoneMapWith.
  rewrite mapGet_fold, Htr, lastBoneWithKey_app. simpl.
  rewrite (lastBoneWithKey_none _ _ Hpost), Hb.
  change ("Bone" =? "Bone")%string with true.
  rewrite String.eqb_refl. reflexivity.
Qed.

Lemma fold_boneMapStep_names_only (objs objs' : list Object3D) :
  map typeAndName objs' = map typeAndName objs ->
  forall m : BoneMap,
    fold_left (boneMapStep canon) objs' m
    = fold_left (boneMapStep canon) objs m.
Proof.
  revert objs'. induction objs as [| o rest IH]; intros [| o' rest'] H m;
    try discriminate; [reflexivity |].
  simpl in H. unfold typeAndName at 1 3 in H.
  injection H as Htype Hname Hrest. simpl.
  assert (boneMapStep canon m o' = boneMapStep canon m o) as ->.
  { unfold boneMapStep. rewrite Htype, Hname. reflexivity. }
  now apply IH.
Qed.

Lemma buildBoneMapWith_names_only (model model' : Object3D) :
  map typeAndName (traverse model') = map typeAndName (traverse model) ->
  buildBoneMapWith canon model' = buildBoneMapWith canon model.
Proof.
  intros H. unfold buildBoneMapWith. now apply fold_boneMapStep_names_only.
Qed.

End BoneMapFacts.

(** C10: in both revisions of the build, when several bones share a canonical
    key the map holds, under that key, the raw name of the bone visited last
    by [traverse]; and the map depends on nothing but the types and names of
    the objects in visiting order. *)
Theorem buildBoneMap_last_wins (model : Object3D)
    (pre post : list Object3D) (b : Object3D) :
  traverse model = (pre ++ b :: post)%list ->
  objType b = "Bone" ->
  ((forall o, In o post -> objType o = "Bone" ->
              normalizeBoneName (objName o) <> normalizeBoneName (objName b)) ->
   mapGet (buildBoneMap model) (normalizeBoneName (objName b))
   = Some (objName b)) /\
  ((forall o, In o post -> objType o = "Bone" ->
              Legacy.simpleName (objName o) <> Legacy.simpleName (objName b)) ->
   mapGet (Legacy.buildBoneMap model) (Legacy.simpleName (objName b))
   = Some (objName b)) /\
  (forall model',
     map typeAndName (traverse model') = map typeAndName (traverse model) ->
     buildBoneMap model' = buildBoneMap model /\
     Legacy.buildBoneMap model' = Legacy.buildBoneMap model).
Proof.
  intros Htr Hb. split; [| split].
  - intros Hnew.
    now apply (buildBoneMapWith_last_wins normalizeBoneName model pre post b).
  - intros Hold.
    now apply (buildBoneMapWith_last_wins Legacy.simpleName model pre post b).
  - intros model' Hsame. split; now apply buildBoneMapWith_names_only.
Qed.

Lemma buildBoneMap_last_wins_witness :
  mapGet (buildBoneMap twoHipsModel) "hips" = Some "Hips" /\
  mapGet (Legacy.buildBoneMap twoHipsModel) "hips" = Some "Hips".
Proof.
  destruct (buildBoneMap_last_wins twoHipsModel
              [twoHipsModel;
               Obj "Bone" "mixamorig:Hips" [Obj "Bone" "Hips" []]]
              [] (Obj "Bone" "Hips" []) eq_refl eq_refl)
    as [Hnew [Hold _]].
  split.
  - apply Hnew. intros o [].
  - apply Hold. intros o [].
Defined.

(** ** C1 and C7: the retargeter *)

Section RetargeterFacts.

Variable modelBones : BoneMap.

Lemma processClip_tracks (baseFormat : ModelFormat) (clip : AnimationClip)
    (name : CharState) (stripPosition : bool) :
  tracks (processClip baseFormat modelBones clip name stripPosition)
  = flat_map
      (fun track =>
         match processTrack baseFormat modelBones stripPosition track with
         | Some t => [t]
         | None => []
         end)
      (tracks clip).
Proof. reflexivity. Qed.

(** a resolved root-class position track is skipped when stripping *)
Lemma processTrack_strips (baseFormat : ModelFormat) (track : KeyframeTrack)
    (target : string) :
  findBoneFuzzy modelBones (normalizeBoneName (trackBoneName track))
  = Some target ->
  truthy target = true ->
  isRootBone baseFormat (normalizeBoneName (trackBoneName track)) = true ->
  trackProperty track = "position" ->
  processTrack baseFormat modelBones true track = None.
Proof.
  intros Hfind Ht Hroot Hprop. unfold processTrack.
  rewrite Hfind, Ht, Hroot, Hprop. reflexivity.
Qed.

(** a skipped track leaves no trace in the retargeted clip *)
Lemma processClip_skips (baseFormat : ModelFormat) (track : KeyframeTrack)
    (stripPosition : bool) (pre post : list KeyframeTrack)
    (n : string) (d : R) (name : CharState) :
  processTrack baseFormat modelBones stripPosition track = None ->
  tracks (processClip baseFormat modelBones
            (mkClip n d (pre ++ track :: post)%list) name stripPosition)
  = tracks (processClip baseFormat modelBones
              (mkClip n d (pre ++ post)%list) name stripPosition).
Proof.
  intros Hnone. rewrite !processClip_tracks. simpl.
  rewrite !flat_map_app. simpl. rewrite Hnone. reflexivity.
Qed.

(** the single-format revision keeps such a track, flattened *)
Lemma legacy_processTrack_flattens (track : KeyframeTrack)
    (target : string) :
  mapGet modelBones (Legacy.simpleName (trackBoneName track)) = Some target ->
  truthy target = true ->
  existsb (fun k => includes (Legacy.simpleName (trackBoneName track)) k)
          Legacy.rootBoneKeywords = true ->
  trackProperty track = "position" ->
  Legacy.processTrack modelBones true track
  = Some (mkTrack (address target "position") (times track)
                  (Legacy.zeroXZ (values track))).
Proof.
  intros Hget Ht Hroot Hprop. unfold Legacy.processTrack.
  rewrite Hget, Ht, Hroot, Hprop. reflexivity.
Qed.

(** the branches of the loop body when the matcher finds nothing usable *)
Lemma processTrack_unresolved (baseFormat : ModelFormat)
    (stripPosition : bool) (track : KeyframeTrack) :
  truthyOpt (findBoneFuzzy modelBones
               (normalizeBoneName (trackBoneName track))) = false ->
  processTrack baseFormat modelBones stripPosition track
  = processUnresolved baseFormat modelBones stripPosition track.
Proof.
  intros H. unfold processTrack.
  destruct (findBoneFuzzy modelBones
              (normalizeBoneName (trackBoneName track))) as [target |];
    [| reflexivity].
  simpl in H. rewrite H. reflexivity.
Qed.

Lemma processUnresolved_glb (stripPosition : bool) (track : KeyframeTrack) :
  processUnresolved GLB modelBones stripPosition track
  = match smartFallback modelBones track with
    | Some rootBone =>
        if stripPosition then None
        else Some (renameTrack track
                     (address rootBone (trackProperty track)))
    | None => Some track
    end.
Proof.
  unfold processUnresolved, smartFallback. simpl.
  destruct ((trackProperty track =? "position") &&
            (includes (normalizeBoneName (trackBoneName track)) "hips"
             || includes (normalizeBoneName (trackBoneName track)) "root"));
    [| reflexivity].
  destruct (jsOr (findBoneFuzzy modelBones "hips")
                 (findBoneFuzzy modelBones "root")) as [rb |];
    [| reflexivity].
  destruct (truthy rb); reflexivity.
Qed.

Lemma legacy_processTrack_unresolved (stripPosition : bool)
    (track : KeyframeTrack) :
  truthyOpt (mapGet modelBones
               (Legacy.simpleName (trackBoneName track))) = false ->
  Legacy.processTrack modelBones stripPosition track = None.
Proof.
  intros H. unfold Legacy.processTrack.
  destruct (mapGet modelBones (Legacy.simpleName (trackBoneName track)))
    as [target |]; [| reflexivity].
  simpl in H. rewrite H. reflexivity.
Qed.

End RetargeterFacts.

(** C1, as stated, fails on the single-format revision: with the map
    [hips -> Character_Hips] and stripping on, the clip holding
    [hips.position] is retargeted to a clip that does hold a
    [Character_Hips.position] track (its X and Z zeroed). *)
Lemma legacy_processClip_keeps_root_position :
  In "Character_Hips.position"
     (trackNames
        (Legacy.processClip hipsMap (mkClip "mixamo.com" 1 [hipsPosition])
           WALK true)).
Proof. left. reflexivity. Qed.

(** C1 (amended): with stripping requested, a position track whose bone the
    matcher resolves and which is root-class is dropped entirely by the
    dual-format retargeter, in both formats: the retargeted clip is that of
    the clip without the track, and the clip [hips.position] under a map
    with [hips -> Character_Hips] comes out with no track at all.  The
    single-format retargeter instead keeps the track, addressed to
    [Character_Hips.position], with X and Z zeroed and Y copied. *)
Theorem processClip_root_position (baseFormat : ModelFormat)
    (modelBones : BoneMap) (track : KeyframeTrack) (target : string)
    (pre post : list KeyframeTrack) (n : string) (d : R) (name : CharState)
    (ts vs : list R) :
  (findBoneFuzzy modelBones (normalizeBoneName (trackBoneName track))
   = Some target ->
   truthy target = true ->
   isRootBone baseFormat (normalizeBoneName (trackBoneName track)) = true ->
   trackProperty track = "position" ->
   tracks (processClip baseFormat modelBones
             (mkClip n d (pre ++ track :: post)%list) name true)
   = tracks (processClip baseFormat modelBones
               (mkClip n d (pre ++ post)%list) name true)) /\
  (mapGet modelBones "hips" = Some "Character_Hips" ->
   tracks (processClip baseFormat modelBones
             (mkClip n d [mkTrack "hips.position" ts vs]) name true) = [] /\
   tracks (Legacy.processClip modelBones
             (mkClip n d [mkTrack "hips.position" ts vs]) name true)
   = [mkTrack "Character_Hips.position" ts (Legacy.zeroXZ vs)]).
Proof.
  split.
  - intros Hfind Ht Hroot Hprop. apply processClip_skips.
    now apply processTrack_strips with (target := target).
  - intros Hget. split.
    + rewrite processClip_tracks. cbn [tracks flat_map].
      rewrite (processTrack_strips modelBones baseFormat
                 (mkTrack "hips.position" ts vs) "Character_Hips").
      * reflexivity.
      * change (normalizeBoneName
                  (trackBoneName (mkTrack "hips.position" ts vs)))
          with "hips".
        now apply findBoneFuzzy_exact.
      * reflexivity.
      * reflexivity.
      * reflexivity.
    + unfold Legacy.processClip. cbn [tracks flat_map].
      rewrite (legacy_processTrack_flattens modelBones
                 (mkTrack "hips.position" ts vs) "Character_Hips").
      * reflexivity.
      * exact Hget.
      * reflexivity.
      * reflexivity.
      * reflexivity.
Qed.

Lemma processClip_root_position_witness :
  tracks (processClip GLB hipsMap
            (mkClip "mixamo.com" 1 [handRotation; hipsPosition]) WALK true)
  = tracks (processClip GLB hipsMap
              (mkClip "mixamo.com" 1 [handRotation]) WALK true) /\
  tracks (processClip GLB hipsMap
            (mkClip "mixamo.com" 1 [mkTrack "hips.position" [0] [1; 2; 3]])
            WALK true) = [] /\
  tracks (Legacy.processClip hipsMap
            (mkClip "mixamo.com" 1 [mkTrack "hips.position" [0] [1; 2; 3]])
            WALK true)
  = [mkTrack "Character_Hips.position" [0] (Legacy.zeroXZ [1; 2; 3])].
Proof.
  pose proof (processClip_root_position GLB hipsMap hipsPosition
                "Character_Hips" [handRotation] [] "mixamo.com" 1 WALK
                [0] [1; 2; 3]) as [Hdrop Hscenario].
  split.
  - apply Hdrop; reflexivity.
  - apply Hscenario. reflexivity.
Defined.

(** C7, as stated, fails on the dual-format revision: in the FBX format, the
    one without the last-resort comment, a track whose bone the matcher
    cannot resolve is pushed unchanged as well, so it does appear in the
    retargeted clip. *)
Lemma processClip_fbx_passes_unresolved :
  findBoneFuzzy hipsMap (normalizeBoneName (trackBoneName handRotation))
  = None /\
  In handRotation
     (tracks (processClip FBX hipsMap (mkClip "mixamo.com" 1 [handRotation])
                WALK true)).
Proof. split; [reflexivity | left; reflexivity]. Qed.

(** C7 (amended): a track whose bone the matcher does not resolve never makes
    the retargeter fail.  In the dual-format revision it is emitted
    unchanged in both formats, FBX and GLB, unless, in GLB, the hips/root
    smart fallback finds a root bone, in which case it is dropped when
    stripping and re-addressed to that bone otherwise.  Only the
    single-format revision drops every track it cannot look up. *)
Theorem processTrack_unresolved_policy (modelBones : BoneMap)
    (stripPosition : bool) (track : KeyframeTrack) :
  (truthyOpt (findBoneFuzzy modelBones
                (normalizeBoneName (trackBoneName track))) = false ->
   processTrack FBX modelBones stripPosition track = Some track /\
   processTrack GLB modelBones stripPosition track
   = match smartFallback modelBones track with
     | Some rootBone =>
         if stripPosition then None
         else Some (renameTrack track (address rootBone (trackProperty track)))
     | None => Some track
     end) /\
  (truthyOpt (mapGet modelBones
                (Legacy.simpleName (trackBoneName track))) = false ->
   Legacy.processTrack modelBones stripPosition track = None).
Proof.
  split.
  - intros H. rewrite !processTrack_unresolved by exact H. split.
    + reflexivity.
    + apply processUnresolved_glb.
  - apply legacy_processTrack_unresolved.
Qed.

Lemma processTrack_unresolved_policy_witness :
  (processTrack FBX hipsMap true handRotation = Some handRotation /\
   processTrack GLB hipsMap true handRotation = Some handRotation) /\
  Legacy.processTrack hipsMap true handRotation = None.
Proof.
  pose proof (processTrack_unresolved_policy hipsMap true handRotation)
    as [Hnew Hold].
  split.
  - apply Hnew. reflexivity.
  - apply Hold. reflexivity.
Defined.

(** the smart fallback at work: a GLB position track of an unmatched
    [armature_root] bone is dropped when stripping and re-addressed to the
    hips otherwise; in FBX it passes through *)
Lemma smartFallback_example :
  let track := mkTrack "x-root.position" [0] [1; 2; 3] in
  let bones := [("h-ips", "Hips")] in
  findBoneFuzzy bones (normalizeBoneName (trackBoneName track)) = None /\
  processTrack GLB bones true track = None /\
  processTrack GLB bones false track
  = Some (mkTrack "Hips.position" [0] [1; 2; 3]) /\
  processTrack FBX bones true track = Some track.
Proof. repeat split; reflexivity. Qed.

(** ** C3: the animation-state effect *)

(** C3: the state after the effect is [DANCE] whenever celebrating; else
    [RUN] or [WALK] by the running flag when a target is set; else, with no
    target, [DANCE] stays and every other state becomes [IDLE]. *)
Theorem stateEffect_cases (target : Vector3) (running : bool)
    (tp : option Vector3) (prev : CharState) :
  stateEffect tp running true prev = DANCE /\
  stateEffect (Some target) true false prev = RUN /\
  stateEffect (Some target) false false prev = WALK /\
  stateEffect None running false DANCE = DANCE /\
  (prev <> DANCE -> stateEffect None running false prev = IDLE) /\
  stateEffect None false false DANCE = DANCE.
Proof.
  repeat split.
  intros Hprev. destruct prev; try reflexivity. now destruct Hprev.
Qed.

Lemma stateEffect_cases_witness :
  stateEffect None false false WALK = IDLE.
Proof.
  apply (stateEffect_cases (vec3 0 0 0) false None WALK). discriminate.
Defined.

(** ** C6: the height function *)

Section HeightFacts.

Variable cfg : StairConfig.

Lemma clamp_bounds (v : R) : 0 <= clamp v 0 1 <= 1.
Proof.
  unfold clamp, Rmax, Rmin.
  destruct (Rle_dec 1 v); destruct (Rle_dec 0 _); lra.
Qed.

Lemma clamp_monotone (u v : R) : u <= v -> clamp u 0 1 <= clamp v 0 1.
Proof.
  intros H. unfold clamp, Rmax, Rmin.
  destruct (Rle_dec 1 u); destruct (Rle_dec 1 v);
    repeat match goal with |- context [Rle_dec ?a ?b] =>
      destruct (Rle_dec a b) end; lra.
Qed.

Lemma clamp_one : clamp 1 0 1 = 1.
Proof.
  unfold clamp, Rmax, Rmin.
  destruct (Rle_dec 1 1); destruct (Rle_dec 0 _); lra.
Qed.

(** the code computes the function the specification describes *)
Lemma heightAt_HeightSpec (z : R) :
  heightAt cfg z = HeightSpec (startZ cfg) (slopeEndZ cfg) (height cfg) z.
Proof. reflexivity. Qed.

Hypothesis ramp_descends : startZ cfg > slopeEndZ cfg.
Hypothesis platform_above : height cfg >= 0.

Lemma progress_antitone (z1 z2 : R) :
  z1 <= z2 ->
  (startZ cfg - z2) / (startZ cfg - slopeEndZ cfg)
  <= (startZ cfg - z1) / (startZ cfg - slopeEndZ cfg).
Proof.
  intros H. unfold Rdiv. apply Rmult_le_compat_r; [| lra].
  left. apply Rinv_0_lt_compat. lra.
Qed.

Lemma heightAt_antitone (z1 z2 : R) :
  z1 <= z2 -> heightAt cfg z2 <= heightAt cfg z1.
Proof.
  intros H. unfold heightAt.
  destruct (Rlt_dec z2 (slopeEndZ cfg)) as [H2 | H2];
    destruct (Rlt_dec z1 (slopeEndZ cfg)) as [H1 | H1]; try lra.
  - pose proof (clamp_bounds
                  ((startZ cfg - z2) / (startZ cfg - slopeEndZ cfg))).
    nra.
  - pose proof (clamp_monotone _ _ (progress_antitone z1 z2 H)).
    nra.
Qed.

Lemma heightAt_platform (z : R) :
  z <= slopeEndZ cfg -> heightAt cfg z = height cfg.
Proof.
  intros H. unfold heightAt.
  destruct (Rlt_dec z (slopeEndZ cfg)) as [Hlt | Hge]; [reflexivity |].
  assert (z = slopeEndZ cfg) as -> by lra.
  replace ((startZ cfg - slopeEndZ cfg) / (startZ cfg - slopeEndZ cfg))
    with 1 by (field; lra).
  rewrite clamp_one. lra.
Qed.

End HeightFacts.

(** C6: when the ramp starts above its end in Z and the platform height is
    not negative, the height never decreases as [z] decreases, in particular
    from the ramp start to the ramp end, and it is the platform height at
    every [z] at or below the ramp end. *)
Theorem heightAt_monotone (cfg : StairConfig) :
  startZ cfg > slopeEndZ cfg ->
  height cfg >= 0 ->
  (forall z1 z2, z1 <= z2 -> heightAt cfg z2 <= heightAt cfg z1) /\
  (forall z, z <= slopeEndZ cfg -> heightAt cfg z = height cfg) /\
  (forall z, heightAt cfg z
             = HeightSpec (startZ cfg) (slopeEndZ cfg) (height cfg) z).
Proof.
  intros Hramp Hh. repeat split.
  - intros z1 z2. now apply heightAt_antitone.
  - intros z. now apply heightAt_platform.
Qed.

Lemma heightAt_monotone_witness :
  heightAt redCarpet 8 <= heightAt redCarpet 2 /\
  heightAt redCarpet (-6) = 5.
Proof.
  assert (Hramp : startZ redCarpet > slopeEndZ redCarpet) by (simpl; lra).
  assert (Hh : height redCarpet >= 0) by (simpl; lra).
  destruct (heightAt_monotone redCarpet Hramp Hh) as [Hmono [Hflat _]].
  split.
  - apply Hmono. lra.
  - apply Hflat. simpl. lra.
Defined.

(** ** C5: height after a frame *)

(** C5, as stated, fails while celebrating: from the ramp start, where the
    height is that of the terrain, one celebrating frame blends the position
    to [(0, 0.25, 7.2)], and the terrain height at [z = 7.2] is [1/3]. *)
Lemma useFrame_celebrating_off_terrain :
  vy (vec3 0 0 8) = heightAt redCarpet (vz (vec3 0 0 8)) /\
  exists pos,
    group (fst (useFrame (mkProps None false true redCarpet) 1
                  (mkFrame (Some (vec3 0 0 8)) (vec3 0 3 14))))
    = Some pos /\
    vy pos <> HeightSpec 8 (-4) 5 (vz pos).
Proof.
  split.
  - unfold heightAt, clamp, Rmax, Rmin. simpl.
    destruct (Rlt_dec 8 (-4)); [lra |].
    destruct (Rle_dec 1 _); destruct (Rle_dec 0 _); lra.
  - eexists. split; [reflexivity |].
    unfold HeightSpec, Vec.lerp, Rmax, Rmin. simpl.
    destruct (Rle_dec 0.05 (1 * 0.5)); [| lra].
    destruct (Rlt_dec _ (-4)); [lra |].
    destruct (Rle_dec 1 _); [lra |].
    destruct (Rle_dec 0 _); lra.
Qed.

(** C5 (amended): at the end of every frame run with [isCelebrating] false
    on a mounted group, [position.y] is the terrain height at [position.z];
    a celebrating frame instead blends the whole position towards the centre
    of the platform and leaves the height to that blend. *)
Theorem useFrame_height (tp : option Vector3) (running : bool)
    (cfg : StairConfig) (delta : R) (currentPos camera : Vector3) :
  (exists pos,
     group (fst (useFrame (mkProps tp running false cfg) delta
                   (mkFrame (Some currentPos) camera))) = Some pos /\
     vy pos = HeightSpec (startZ cfg) (slopeEndZ cfg) (height cfg) (vz pos)) /\
  group (fst (useFrame (mkProps tp running true cfg) delta
                (mkFrame (Some currentPos) camera)))
  = Some (Vec.lerp currentPos
            (vec3 0 (height cfg) ((slopeEndZ cfg + wallZ cfg) / 2))
            (Rmin 0.05 (delta * 0.5))).
Proof.
  split.
  - unfold useFrame. cbn [group].
    destruct (moveStep (mkProps tp running false cfg) delta currentPos)
      as [moved effects].
    eexists. split; reflexivity.
  - reflexivity.
Qed.

(** ** C9: the scale of the model *)

(** C9: when the height of the bounding box exceeds 0.001 the scale becomes
    1.8 divided by that height, so 0.5 for a height of 3.6; otherwise the
    scale keeps its previous value.  This holds for the single-format effect
    and for both boxes the dual-format effect may measure. *)
Theorem layoutEffect_scale (box whole : Box3) (modelScale : R)
    (baseFormat : ModelFormat) :
  (vy (getSize box) > 0.001 ->
   LegacyScale.layoutEffect box modelScale = 1.8 / vy (getSize box) /\
   fst (layoutEffect baseFormat (Some (Some box)) whole modelScale)
   = 1.8 / vy (getSize box) /\
   fst (layoutEffect baseFormat None box modelScale)
   = 1.8 / vy (getSize box)) /\
  (vy (getSize box) <= 0.001 ->
   LegacyScale.layoutEffect box modelScale = modelScale /\
   fst (layoutEffect baseFormat (Some (Some box)) whole modelScale)
   = modelScale /\
   fst (layoutEffect baseFormat None box modelScale) = modelScale) /\
  (vy (getSize box) = 3.6 ->
   LegacyScale.layoutEffect box modelScale = 0.5).
Proof.
  unfold LegacyScale.layoutEffect, layoutEffect.
  split; [| split]; intros Hsize.
  - destruct (Rgt_dec (vy (getSize box)) 0.001); [| lra].
    destruct (isGlb baseFormat); repeat split; reflexivity.
  - destruct (Rgt_dec (vy (getSize box)) 0.001); [lra |].
    repeat split; reflexivity.
  - destruct (Rgt_dec (vy (getSize box)) 0.001); rewrite Hsize in *;
      [lra | lra].
Qed.

Lemma layoutEffect_scale_witness :
  LegacyScale.layoutEffect (box3 (vec3 (-1) 0 (-1)) (vec3 1 3.6 1)) 0.01
  = 0.5 /\
  LegacyScale.layoutEffect (box3 (vec3 0 0 0) (vec3 0 0 0)) 0.01 = 0.01.
Proof.
  assert (Htall : vy (getSize (box3 (vec3 (-1) 0 (-1)) (vec3 1 3.6 1))) = 3.6).
  { unfold getSize, boxIsEmpty. simpl.
    destruct (Rlt_dec 1 (-1)); [lra |].
    destruct (Rlt_dec 3.6 0); [lra |].
    destruct (Rlt_dec 1 (-1)); [lra |]. simpl. lra. }
  assert (Hflat : vy (getSize (box3 (vec3 0 0 0) (vec3 0 0 0))) <= 0.001).
  { unfold getSize, boxIsEmpty. simpl.
    destruct (Rlt_dec 0 0); [lra |]. simpl. lra. }
  split.
  - apply (layoutEffect_scale _ (box3 (vec3 0 0 0) (vec3 0 0 0)) 0.01 FBX).
    exact Htall.
  - apply (layoutEffect_scale _ (box3 (vec3 0 0 0) (vec3 0 0 0)) 0.01 FBX).
    exact Hflat.
Defined.

(** ** C4: movement towards the target *)

Section MovementFacts.

Variables (target currentPos : Vector3).

Let flatTarget : Vector3 := vec3 (vx target) 0 (vz target).
Let flatCurrent : Vector3 := vec3 (vx currentPos) 0 (vz currentPos).

Lemma distanceTo_flat :
  Vec.distanceTo flatCurrent flatTarget
  = horizontalDistance currentPos target.
Proof.
  unfold Vec.distanceTo, horizontalDistance. simpl. f_equal. ring.
Qed.

Lemma length_flat :
  Vec.length (Vec.subVectors flatTarget flatCurrent)
  = horizontalDistance currentPos target.
Proof.
  unfold Vec.length, horizontalDistance. simpl. f_equal. ring.
Qed.

Lemma horizontalDistance_square :
  horizontalDistance currentPos target * horizontalDistance currentPos target
  = (vx currentPos - vx target) * (vx currentPos - vx target)
    + (vz currentPos - vz target) * (vz currentPos - vz target).
Proof.
  unfold horizontalDistance. apply sqrt_sqrt.
  pose proof (Rle_0_sqr (vx currentPos - vx target)) as Hx.
  pose proof (Rle_0_sqr (vz currentPos - vz target)) as Hz.
  unfold Rsqr in Hx, Hz. lra.
Qed.

(** the direction of travel is the unit vector from the position to the
    target in the X/Z plane *)
Lemma normalize_flat :
  horizontalDistance currentPos target <> 0 ->
  Vec.normalize (Vec.subVectors flatTarget flatCurrent)
  = vec3 ((vx target - vx currentPos)
          * (1 / horizontalDistance currentPos target))
         ((0 - 0) * (1 / horizontalDistance currentPos target))
         ((vz target - vz currentPos)
          * (1 / horizontalDistance currentPos target)).
Proof.
  intros Hd. unfold Vec.normalize. rewrite length_flat.
  destruct (Req_dec_T (horizontalDistance currentPos target) 0);
    [contradiction | reflexivity].
Qed.

Lemma step_length (m : R) :
  horizontalDistance currentPos target <> 0 ->
  horizontalDistance
    (vec3 (vx currentPos
           + (vx target - vx currentPos)
             * (1 / horizontalDistance currentPos target) * m)
          (vy currentPos)
          (vz currentPos
           + (vz target - vz currentPos)
             * (1 / horizontalDistance currentPos target) * m))
    currentPos
  = Rabs m.
Proof.
  intros Hd. pose proof horizontalDistance_square as Hsq.
  set (d := horizontalDistance currentPos target) in *.
  unfold horizontalDistance at 1. simpl.
  rewrite <- sqrt_Rsqr_abs. f_equal. unfold Rsqr.
  transitivity
    (m * m * (((vx currentPos - vx target) * (vx currentPos - vx target)
               + (vz currentPos - vz target) * (vz currentPos - vz target))
              / (d * d))).
  - field. exact Hd.
  - rewrite <- Hsq. field. exact Hd.
Qed.

End MovementFacts.

(** C4: in a frame with a target set and not celebrating, on a mounted
    group: when the X/Z distance to the target is below 0.2 the frame calls
    [onStop] with the current position, sets the state to [IDLE] and leaves
    X and Z as they were; otherwise it calls nothing and moves X and Z along
    the unit direction to the target by [min (speed * delta) 0.5], with speed
    5.0 when running and 2.0 otherwise, so that the step has that length. *)
Theorem useFrame_movement (target currentPos camera : Vector3)
    (running : bool) (cfg : StairConfig) (delta : R) :
  (horizontalDistance currentPos target < 0.2 ->
   snd (useFrame (mkProps (Some target) running false cfg) delta
          (mkFrame (Some currentPos) camera))
   = [OnStop currentPos; SetCharState IDLE] /\
   exists pos,
     group (fst (useFrame (mkProps (Some target) running false cfg) delta
                   (mkFrame (Some currentPos) camera))) = Some pos /\
     vx pos = vx currentPos /\ vz pos = vz currentPos) /\
  (~ horizontalDistance currentPos target < 0.2 ->
   snd (useFrame (mkProps (Some target) running false cfg) delta
          (mkFrame (Some currentPos) camera)) = [] /\
   exists pos,
     group (fst (useFrame (mkProps (Some target) running false cfg) delta
                   (mkFrame (Some currentPos) camera))) = Some pos /\
     vx pos = vx currentPos
              + (vx target - vx currentPos)
                / horizontalDistance currentPos target
                * Rmin ((if running then 5.0 else 2.0) * delta) 0.5 /\
     vz pos = vz currentPos
              + (vz target - vz currentPos)
                / horizontalDistance currentPos target
                * Rmin ((if running then 5.0 else 2.0) * delta) 0.5 /\
     horizontalDistance pos currentPos
     = Rabs (Rmin ((if running then 5.0 else 2.0) * delta) 0.5)) /\
  2.0 < 5.0.
Proof.
  split; [| split; [| lra]]; intros Hdist.
  - unfold useFrame, moveStep. cbn [group isCelebrating targetPos].
    rewrite distanceTo_flat.
    destruct (Rlt_dec (horizontalDistance currentPos target) 0.2);
      [| contradiction].
    split; [reflexivity |]. eexists. split; [reflexivity |].
    split; reflexivity.
  - assert (Hpos : horizontalDistance currentPos target <> 0) by lra.
    unfold useFrame, moveStep.
    cbn [group isCelebrating targetPos isRunning].
    rewrite distanceTo_flat.
    destruct (Rlt_dec (horizontalDistance currentPos target) 0.2);
      [contradiction |].
    rewrite (normalize_flat _ _ Hpos).
    split; [reflexivity |]. eexists. split; [reflexivity |].
    cbn [fst heightStep isCelebrating vx vz vy]. repeat split.
    + unfold Rdiv. ring.
    + unfold Rdiv. ring.
    + apply (step_length target currentPos _ Hpos).
Qed.

Lemma useFrame_movement_witness :
  snd (useFrame (mkProps (Some (vec3 0 0 (-4))) false false redCarpet) 0.1
         (mkFrame (Some (vec3 0 5 (-4))) (vec3 0 8 2)))
  = [OnStop (vec3 0 5 (-4)); SetCharState IDLE] /\
  snd (useFrame (mkProps (Some (vec3 0 0 (-4))) false false redCarpet) 0.1
         (mkFrame (Some (vec3 0 0 8)) (vec3 0 3 14)))
  = [].
Proof.
  assert (Hnear : horizontalDistance (vec3 0 5 (-4)) (vec3 0 0 (-4)) < 0.2).
  { unfold horizontalDistance. simpl.
    replace ((0 - 0) * (0 - 0) + (-4 - -4) * (-4 - -4)) with 0 by ring.
    rewrite sqrt_0. lra. }
  assert (Hfar : ~ horizontalDistance (vec3 0 0 8) (vec3 0 0 (-4)) < 0.2).
  { unfold horizontalDistance. simpl.
    replace ((0 - 0) * (0 - 0) + (8 - -4) * (8 - -4)) with (12 * 12) by ring.
    rewrite sqrt_square by lra. lra. }
  split.
  - apply (useFrame_movement (vec3 0 0 (-4)) (vec3 0 5 (-4)) (vec3 0 8 2)
             false redCarpet 0.1). exact Hnear.
  - apply (useFrame_movement (vec3 0 0 (-4)) (vec3 0 0 8) (vec3 0 3 14)
             false redCarpet 0.1). exact Hfar.
Defined.

(** * Further properties of the code *)

(** ** Canonical keys *)

Section KeyFacts.

Open Scope nat_scope.














End KeyFacts.




(** ** The matcher and the bone map *)

Section LookupFacts.

Lemma mapGet_In (m : BoneMap) (k v : string) :
  mapGet m k = Some v -> In (k, v) m.
Proof.
  induction m as [| [k0 v0] rest IH]; simpl; [discriminate |].
  destruct (k0 =? k) eqn:Hk.
  - apply String.eqb_eq in Hk. intros H. injection H as <-. subst k0.
    now left.
  - intros H. right. now apply IH.
Qed.

Lemma firstContainment_In (cleanSearch : string) (m : BoneMap) (v : string) :
  ThreePhase.firstContainment cleanSearch m = Some v ->
  exists k, In (k, v) m /\
            (endsWith (stripNonAlnum k) cleanSearch
             || endsWith cleanSearch (stripNonAlnum k)) = true.
Proof.
  induction m as [| [k0 v0] rest IH]; simpl; [discriminate |].
  destruct (endsWith (stripNonAlnum k0) cleanSearch
            || endsWith cleanSearch (stripNonAlnum k0)) eqn:Hrel.
  - intros H. injection H as <-. exists k0. split; [now left | exact Hrel].
  - intros H. destruct (IH H) as [k [Hin Hk]]. exists k.
    split; [now right | exact Hk].
Qed.

Lemma firstContainment_None (cleanSearch : string) (m : BoneMap) :
  ThreePhase.firstContainment cleanSearch m = None <->
  forall k v, In (k, v) m ->
    (endsWith (stripNonAlnum k) cleanSearch
     || endsWith cleanSearch (stripNonAlnum k)) = false.
Proof.
  induction m as [| [k0 v0] rest IH]; simpl.
  - split; [intros _ k v [] | reflexivity].
  - destruct (endsWith (stripNonAlnum k0) cleanSearch
              || endsWith cleanSearch (stripNonAlnum k0)) eqn:Hrel.
    + split; [discriminate |]. intros H.
      rewrite (H k0 v0) in Hrel by now left. discriminate.
    + rewrite IH. split.
      * intros H k v [Heq | Hin]; [| now apply (H k v)].
        injection Heq as <- <-. exact Hrel.
      * intros H k v Hin. apply (H k v). now right.
Qed.

Lemma drop_all (s : string) : drop (String.length s) s = EmptyString.
Proof. induction s as [| c t IH]; [reflexivity | exact IH]. Qed.

Lemma endsWith_empty (s : string) : endsWith s EmptyString = true.
Proof.
  unfold endsWith. cbn [String.length]. rewrite Nat.sub_0_r, drop_all.
  reflexivity.
Qed.

End LookupFacts.

Lemma findBoneFuzzy_value (boneMap : BoneMap) (searchName v : string) :
  findBoneFuzzy boneMap searchName = Some v -> exists k, In (k, v) boneMap.
Proof.
  unfold findBoneFuzzy. rewrite findBoneLoop_single_pass.
  destruct (mapGet boneMap searchName) as [direct |] eqn:Hget.
  - destruct (truthy direct).
    + intros H. injection H as <-. exists searchName. now apply mapGet_In.
    + intros H. destruct (firstContainment_In _ _ _ H) as [k [Hin _]].
      now exists k.
  - intros H. destruct (firstContainment_In _ _ _ H) as [k [Hin _]].
    now exists k.
Qed.

(** X3: the matcher never invents a bone: whatever it returns is the value of
    an entry of the map, and on the empty map it returns nothing. *)
Theorem findBoneFuzzy_in_map (boneMap : BoneMap) (searchName v : string) :
  (findBoneFuzzy boneMap searchName = Some v -> exists k, In (k, v) boneMap) /\
  findBoneFuzzy [] searchName = None.
Proof.
  split; [apply findBoneFuzzy_value | reflexivity].
Qed.

Lemma findBoneFuzzy_in_map_witness :
  exists k, In (k, "Character_Hips") hipsMap.
Proof.
  apply (findBoneFuzzy_in_map hipsMap "my_hips" "Character_Hips").
  reflexivity.
Defined.

(** X4: the matcher answers "no match" exactly when no entry of the map has
    a stripped key that ends with the stripped search key or that the
    stripped search key ends with. *)
Theorem findBoneFuzzy_none_iff (boneMap : BoneMap) (searchName : string) :
  findBoneFuzzy boneMap searchName = None <->
  forall k v, In (k, v) boneMap ->
    (endsWith (stripNonAlnum k) (stripNonAlnum searchName)
     || endsWith (stripNonAlnum searchName) (stripNonAlnum k)) = false.
Proof.
  unfold findBoneFuzzy. rewrite findBoneLoop_single_pass. split.
  - intros H. apply firstContainment_None.
    destruct (mapGet boneMap searchName) as [direct |]; [| exact H].
    destruct (truthy direct); [discriminate | exact H].
  - intros H.
    assert (Hloop : ThreePhase.firstContainment (stripNonAlnum searchName)
                      boneMap = None) by now apply firstContainment_None.
    destruct (mapGet boneMap searchName) as [direct |] eqn:Hget;
      [| exact Hloop].
    apply mapGet_In in Hget. specialize (H _ _ Hget).
    rewrite endsWith_refl in H. discriminate.
Qed.

Lemma findBoneFuzzy_none_iff_witness :
  findBoneFuzzy hipsMap "lefthand" = None.
Proof.
  apply (proj2 (findBoneFuzzy_none_iff hipsMap "lefthand")).
  intros k v [Heq | []]. injection Heq as <- <-. reflexivity.
Defined.

(** X5: a key or a search name without any letter or digit strips to the
    empty string, which every string ends with: short of an exact hit on a
    non-empty name, the first entry of the map then wins, whatever it is. *)
Theorem findBoneFuzzy_degenerate (k v : string) (rest : BoneMap)
    (searchName : string) :
  truthyOpt (mapGet ((k, v) :: rest) searchName) = false ->
  stripNonAlnum k = "" \/ stripNonAlnum searchName = "" ->
  findBoneFuzzy ((k, v) :: rest) searchName = Some v.
Proof.
  intros Hget Hempty. unfold findBoneFuzzy.
  assert (Hloop : findBoneLoop (stripNonAlnum searchName) ((k, v) :: rest)
                  = Some v).
  { rewrite findBoneLoop_single_pass. cbn [ThreePhase.firstContainment].
    destruct Hempty as [-> | ->]; rewrite endsWith_empty.
    - rewrite orb_true_r. reflexivity.
    - reflexivity. }
  destruct (mapGet ((k, v) :: rest) searchName) as [direct |];
    [| exact Hloop].
  cbn [truthyOpt] in Hget. rewrite Hget. exact Hloop.
Qed.

Lemma findBoneFuzzy_degenerate_witness :
  findBoneFuzzy [("__", "Armature"); ("hips", "Hips")] "lefthand"
  = Some "Armature".
Proof.
  apply findBoneFuzzy_degenerate; [reflexivity | left; reflexivity].
Defined.

Section BoneMapInvariants.

Variable canon : string -> string.

Lemma In_mapSet (m : BoneMap) (k v : string) (e : string * string) :
  In e (mapSet m k v) -> e = (k, v) \/ In e m.
Proof.
  induction m as [| [k0 v0] rest IH]; simpl.
  - intros [H | []]. now left.
  - destruct (k0 =? k) eqn:Hk.
    + apply String.eqb_eq in Hk. subst k0.
      intros [H | H]; [left; now symmetry | right; now right].
    + intros [H | H]; [right; now left |].
      destruct (IH H) as [He | Hin]; [now left | right; now right].
Qed.

Lemma keys_mapSet (m : BoneMap) (k v k' : string) :
  In k' (map fst (mapSet m k v)) -> k' = k \/ In k' (map fst m).
Proof.
  induction m as [| [k0 v0] rest IH]; simpl.
  - intros [H | []]. now left.
  - destruct (k0 =? k) eqn:Hk; simpl.
    + intros [H | H]; [right; now left | right; now right].
    + intros [H | H]; [right; now left |].
      destruct (IH H) as [He | Hin]; [now left | right; now right].
Qed.

Lemma NoDup_mapSet (m : BoneMap) (k v : string) :
  NoDup (map fst m) -> NoDup (map fst (mapSet m k v)).
Proof.
  induction m as [| [k0 v0] rest IH]; simpl; intros Hnd.
  - constructor; [intros [] | constructor].
  - inversion Hnd as [| ? ? Hnotin Hrest]; subst.
    destruct (k0 =? k) eqn:Hk; simpl.
    + constructor; assumption.
    + constructor; [| now apply IH].
      intros Hin. destruct (keys_mapSet _ _ _ _ Hin) as [He | Hin'].
      * subst k0. rewrite String.eqb_refl in Hk. discriminate.
      * contradiction.
Qed.

Lemma wellKeyed_fold (all : list Object3D) (objs : list Object3D) :
  (forall o, In o objs -> In o all) ->
  forall m, wellKeyed canon all m ->
            wellKeyed canon all (fold_left (boneMapStep canon) objs m).
Proof.
  induction objs as [| o rest IH]; intros Hsub m Hm; [exact Hm |].
  simpl. apply IH; [intros o' Hin; apply Hsub; now right |].
  unfold boneMapStep. destruct (objType o =? "Bone") eqn:Ht; [| exact Hm].
  apply String.eqb_eq in Ht. destruct Hm as [Hnd Hent]. split.
  - now apply NoDup_mapSet.
  - intros k v Hin. destruct (In_mapSet _ _ _ _ Hin) as [Heq | Hold].
    + injection Heq as -> ->. split; [reflexivity |].
      exists o. repeat split; [apply Hsub; now left | exact Ht].
    + now apply Hent.
Qed.

Lemma lastBoneWithKey_key (k : string) (objs : list Object3D) (n : string) :
  lastBoneWithKey canon k objs = Some n -> canon n = k.
Proof.
  induction objs as [| o rest IH]; simpl; [discriminate |].
  destruct (lastBoneWithKey canon k rest) as [n' |].
  - intros H. injection H as ->. now apply IH.
  - destruct ((objType o =? "Bone") && (canon (objName o) =? k)) eqn:Hc;
      [| discriminate].
    intros H. injection H as <-. apply andb_true_iff in Hc as [_ Hc].
    now apply String.eqb_eq in Hc.
Qed.

Lemma lastBoneWithKey_some (objs : list Object3D) (b : Object3D) :
  In b objs -> objType b = "Bone" ->
  exists v, lastBoneWithKey canon (canon (objName b)) objs = Some v /\
            canon v = canon (objName b).
Proof.
  intros Hin Hb.
  assert (Hsome : lastBoneWithKey canon (canon (objName b)) objs <> None).
  { induction objs as [| o rest IH]; [destruct Hin |]. simpl.
    destruct (lastBoneWithKey canon (canon (objName b)) rest) as [n |];
      [discriminate |].
    destruct Hin as [-> | Hin]; [| now destruct (IH Hin)].
    rewrite Hb. change ("Bone" =? "Bone") with true.
    rewrite String.eqb_refl. discriminate. }
  destruct (lastBoneWithKey canon (canon (objName b)) objs) as [v |] eqn:Hv;
    [| contradiction].
  exists v. split; [reflexivity |]. now apply (lastBoneWithKey_key _ objs).
Qed.

Lemma buildBoneMapWith_covers (model : Object3D) (b : Object3D) :
  In b (traverse model) -> objType b = "Bone" ->
  exists v, mapGet (buildBoneMapWith canon model) (canon (objName b))
            = Some v /\
            canon v = canon (objName b).
Proof.
  intros Hin Hb.
  destruct (lastBoneWithKey_some _ _ Hin Hb) as [v [Hv Hk]].
  exists v. split; [| exact Hk].
  unfold buildBoneMapWith. rewrite mapGet_fold, Hv. reflexivity.
Qed.

End BoneMapInvariants.

(** X6: in the bone map of either revision the keys are pairwise distinct,
    every key is the canonical key of the value stored under it, and every
    value is the name of a bone of the model. *)
Theorem buildBoneMap_entries (model : Object3D) :
  wellKeyed normalizeBoneName (traverse model) (buildBoneMap model) /\
  wellKeyed Legacy.simpleName (traverse model) (Legacy.buildBoneMap model).
Proof.
  split; apply wellKeyed_fold; try (intros o H; exact H);
    (split; [constructor | intros k v []]).
Qed.

(** X7: every bone of the model can be looked up by its own canonical key;
    the entry found is a bone with that same key (the last one visited). *)
Theorem buildBoneMap_covers (model : Object3D) (b : Object3D) :
  In b (traverse model) -> objType b = "Bone" ->
  (exists v, mapGet (buildBoneMap model) (normalizeBoneName (objName b))
             = Some v /\
             normalizeBoneName v = normalizeBoneName (objName b)) /\
  (exists v, mapGet (Legacy.buildBoneMap model)
               (Legacy.simpleName (objName b)) = Some v /\
             Legacy.simpleName v = Legacy.simpleName (objName b)).
Proof.
  intros Hin Hb. split.
  - now apply (buildBoneMapWith_covers normalizeBoneName).
  - now apply (buildBoneMapWith_covers Legacy.simpleName).
Qed.

Lemma buildBoneMap_covers_witness :
  (exists v, mapGet (buildBoneMap twoHipsModel) "hips" = Some v /\
             normalizeBoneName v = "hips") /\
  (exists v, mapGet (Legacy.buildBoneMap twoHipsModel) "hips" = Some v /\
             Legacy.simpleName v = "hips").
Proof.
  apply (buildBoneMap_covers twoHipsModel
           (Obj "Bone" "mixamorig:Hips" [Obj "Bone" "Hips" []])).
  - right. left. reflexivity.
  - reflexivity.
Defined.

(** ** The retargeter *)

Section RetargetFacts.

Open Scope nat_scope.

Lemma flat_map_option_length {A B : Type} (f : A -> option B) (l : list A) :
  List.length
    (flat_map (fun a => match f a with Some b => [b] | None => [] end) l)
  <= List.length l.
Proof.
  induction l as [| a rest IH]; simpl; [lia |].
  destruct (f a); simpl; lia.
Qed.

Lemma flat_map_option_total {A B : Type} (f : A -> option B) (l : list A) :
  (forall a, In a l -> f a <> None) ->
  List.length
    (flat_map (fun a => match f a with Some b => [b] | None => [] end) l)
  = List.length l.
Proof.
  induction l as [| a rest IH]; simpl; intros H; [reflexivity |].
  destruct (f a) eqn:Hf; [| exfalso; apply (H a); auto].
  simpl. rewrite IH; [reflexivity |]. intros a' Hin. apply H. now right.
Qed.

Lemma flat_map_option_In {A B : Type} (f : A -> option B) (l : list A)
    (b : B) :
  In b (flat_map (fun a => match f a with Some b => [b] | None => [] end) l)
  -> exists a, In a l /\ f a = Some b.
Proof.
  induction l as [| a rest IH]; simpl; [intros [] |].
  intros H. apply in_app_or in H as [H | H].
  - destruct (f a) as [b' |] eqn:Hf; [| destruct H].
    destruct H as [<- | []]. exists a. split; [now left | exact Hf].
  - destruct (IH H) as [a' [Hin Hf]]. exists a'. split; [now right | exact Hf].
Qed.

Lemma flat_map_option_id {A : Type} (f : A -> option A) (l : list A) :
  (forall a, In a l -> f a = Some a) ->
  flat_map (fun a => match f a with Some b => [b] | None => [] end) l = l.
Proof.
  induction l as [| a rest IH]; simpl; intros H; [reflexivity |].
  rewrite (H a) by now left. simpl. f_equal. apply IH.
  intros a' Hin. apply H. now right.
Qed.

Variable modelBones : BoneMap.

(** the root bone of the smart fallback is an entry of the map *)
Lemma jsOr_in_map (rb : string) :
  jsOr (findBoneFuzzy modelBones "hips") (findBoneFuzzy modelBones "root")
  = Some rb ->
  exists k, In (k, rb) modelBones.
Proof.
  unfold jsOr.
  destruct (truthyOpt (findBoneFuzzy modelBones "hips")); intros H;
    now apply findBoneFuzzy_value in H.
Qed.

(** what a pushed track is, in the dual-format revision *)
Lemma processTrack_pushed (baseFormat : ModelFormat) (stripPosition : bool)
    (track pushed : KeyframeTrack) :
  processTrack baseFormat modelBones stripPosition track = Some pushed ->
  times pushed = times track /\
  values pushed = values track /\
  (pushed = track \/
   exists k v, In (k, v) modelBones /\
               trackName pushed = address v (trackProperty track)).
Proof.
  assert (Hun : processUnresolved baseFormat modelBones stripPosition track
                = Some pushed ->
                times pushed = times track /\
                values pushed = values track /\
                (pushed = track \/
                 exists k v, In (k, v) modelBones /\
                   trackName pushed = address v (trackProperty track))).
  { unfold processUnresolved.
    destruct (isGlb baseFormat);
      [| intros H; injection H as <-; auto].
    destruct ((trackProperty track =? "position")%string &&
              (includes (normalizeBoneName (trackBoneName track)) "hips"
               || includes (normalizeBoneName (trackBoneName track)) "root"));
      [| intros H; injection H as <-; auto].
    destruct (jsOr (findBoneFuzzy modelBones "hips")
                   (findBoneFuzzy modelBones "root")) as [rb |] eqn:Hrb;
      [| intros H; injection H as <-; auto].
    destruct (truthy rb); [| intros H; injection H as <-; auto].
    destruct stripPosition; [discriminate |].
    intros H. injection H as <-. repeat split. right.
    destruct (jsOr_in_map rb Hrb) as [k Hin]. now exists k, rb. }
  unfold processTrack.
  destruct (findBoneFuzzy modelBones
              (normalizeBoneName (trackBoneName track))) as [target |] eqn:Hf;
    [| exact Hun].
  destruct (truthy target); [| exact Hun].
  destruct (stripPosition
            && isRootBone baseFormat
                 (normalizeBoneName (trackBoneName track))
            && (trackProperty track =? "position")%string);
    [discriminate |].
  intros H. injection H as <-. repeat split. right.
  destruct (findBoneFuzzy_value modelBones _ target Hf) as [k Hin].
  now exists k, target.
Qed.

(** what a pushed track is, in the single-format revision *)
Lemma legacy_processTrack_pushed (stripPosition : bool)
    (track pushed : KeyframeTrack) :
  Legacy.processTrack modelBones stripPosition track = Some pushed ->
  times pushed = times track /\
  (values pushed = values track \/
   values pushed = Legacy.zeroXZ (values track)) /\
  exists k v, In (k, v) modelBones /\
              trackName pushed = address v (trackProperty track).
Proof.
  unfold Legacy.processTrack.
  destruct (mapGet modelBones (Legacy.simpleName (trackBoneName track)))
    as [target |] eqn:Hget; [| discriminate].
  destruct (truthy target); [| discriminate].
  apply mapGet_In in Hget.
  destruct (stripPosition
            && existsb
                 (fun k => includes (Legacy.simpleName (trackBoneName track)) k)
                 Legacy.rootBoneKeywords
            && (trackProperty track =? "position")%string) eqn:Hstrip;
    intros H; injection H as <-; cbn [times values trackName renameTrack].
  - apply andb_true_iff in Hstrip as [_ Hprop].
    apply String.eqb_eq in Hprop. rewrite Hprop.
    repeat split; [now right |].
    now exists (Legacy.simpleName (trackBoneName track)), target.
  - repeat split; [now left |].
    now exists (Legacy.simpleName (trackBoneName track)), target.
Qed.

(** when not stripping, the dual-format loop pushes for every track *)
Lemma processTrack_no_strip (baseFormat : ModelFormat)
    (track : KeyframeTrack) :
  processTrack baseFormat modelBones false track <> None.
Proof.
  assert (Hun : processUnresolved baseFormat modelBones false track <> None).
  { unfold processUnresolved.
    destruct (isGlb baseFormat); [| discriminate].
    destruct (_ && _); [| discriminate].
    destruct (jsOr _ _) as [rb |]; [| discriminate].
    destruct (truthy rb); discriminate. }
  unfold processTrack.
  destruct (findBoneFuzzy modelBones _) as [target |]; [| exact Hun].
  destruct (truthy target); [discriminate | exact Hun].
Qed.

End RetargetFacts.

(** X8: retargeting never adds a track: in both revisions the retargeted
    clip has at most as many tracks as the source clip, and it keeps the
    source's duration and takes the state's name. *)
Theorem processClip_track_count (baseFormat : ModelFormat)
    (modelBones : BoneMap) (clip : AnimationClip) (name : CharState)
    (stripPosition : bool) :
  (List.length (tracks (processClip baseFormat modelBones clip name
                          stripPosition))
   <= List.length (tracks clip))%nat /\
  (List.length (tracks (Legacy.processClip modelBones clip name
                          stripPosition))
   <= List.length (tracks clip))%nat /\
  duration (processClip baseFormat modelBones clip name stripPosition)
  = duration clip /\
  clipName (processClip baseFormat modelBones clip name stripPosition)
  = charStateName name.
Proof.
  repeat split.
  - apply (flat_map_option_length
             (processTrack baseFormat modelBones stripPosition)).
  - apply (flat_map_option_length
             (Legacy.processTrack modelBones stripPosition)).
Qed.

(** X9: the dual-format retargeter never touches keyframes: every track of
    the retargeted clip carries the times and values of a track of the
    source clip, and it is either that very track or that track re-addressed
    to a bone stored in the map, under the source track's property. *)
Theorem processClip_keeps_keyframes (baseFormat : ModelFormat)
    (modelBones : BoneMap) (clip : AnimationClip) (name : CharState)
    (stripPosition : bool) (pushed : KeyframeTrack) :
  In pushed (tracks (processClip baseFormat modelBones clip name
                       stripPosition)) ->
  exists track,
    In track (tracks clip) /\
    times pushed = times track /\
    values pushed = values track /\
    (pushed = track \/
     exists k v, In (k, v) modelBones /\
                 trackName pushed = address v (trackProperty track)).
Proof.
  intros Hin. rewrite processClip_tracks in Hin.
  apply (flat_map_option_In
           (processTrack baseFormat modelBones stripPosition)) in Hin.
  destruct Hin as [track [Hin Hpush]]. exists track.
  split; [exact Hin |]. now apply processTrack_pushed with (1 := Hpush).
Qed.

Lemma processClip_keeps_keyframes_witness :
  exists track,
    In track [handRotation; hipsPosition] /\
    times handRotation = times track /\
    values handRotation = values track /\
    (handRotation = track \/
     exists k v, In (k, v) hipsMap /\
                 trackName handRotation = address v (trackProperty track)).
Proof.
  apply (processClip_keeps_keyframes FBX hipsMap
           (mkClip "mixamo.com" 1 [handRotation; hipsPosition]) WALK true).
  left. reflexivity.
Defined.

(** X10: every track of a clip retargeted by the single-format revision is
    addressed to a bone stored in the map, under the source track's
    property, keeps the source track's times, and carries either its values
    or its values with X and Z zeroed. *)
Theorem legacy_processClip_addresses_bones (modelBones : BoneMap)
    (clip : AnimationClip) (name : CharState) (stripPosition : bool)
    (pushed : KeyframeTrack) :
  In pushed (tracks (Legacy.processClip modelBones clip name stripPosition))
  ->
  exists track,
    In track (tracks clip) /\
    times pushed = times track /\
    (values pushed = values track \/
     values pushed = Legacy.zeroXZ (values track)) /\
    exists k v, In (k, v) modelBones /\
                trackName pushed = address v (trackProperty track).
Proof.
  intros Hin. unfold Legacy.processClip in Hin. cbn [tracks] in Hin.
  apply (flat_map_option_In
           (Legacy.processTrack modelBones stripPosition)) in Hin.
  destruct Hin as [track [Hin Hpush]]. exists track.
  split; [exact Hin |].
  now apply legacy_processTrack_pushed with (1 := Hpush).
Qed.

Lemma legacy_processClip_addresses_bones_witness :
  exists track,
    In track [hipsPosition] /\
    times (mkTrack "Character_Hips.position" [0; 1]
             (Legacy.zeroXZ [1; 2; 3; 4; 5; 6])) = times track /\
    (values (mkTrack "Character_Hips.position" [0; 1]
               (Legacy.zeroXZ [1; 2; 3; 4; 5; 6])) = values track \/
     values (mkTrack "Character_Hips.position" [0; 1]
               (Legacy.zeroXZ [1; 2; 3; 4; 5; 6]))
     = Legacy.zeroXZ (values track)) /\
    exists k v, In (k, v) hipsMap /\
                trackName (mkTrack "Character_Hips.position" [0; 1]
                             (Legacy.zeroXZ [1; 2; 3; 4; 5; 6]))
                = address v (trackProperty track).
Proof.
  apply (legacy_processClip_addresses_bones hipsMap
           (mkClip "mixamo.com" 1 [hipsPosition]) WALK true).
  left. reflexivity.
Defined.

(** X11: without stripping, the dual-format retargeter keeps every track:
    the retargeted clip has exactly as many tracks as the source clip. *)
Theorem processClip_no_strip_count (baseFormat : ModelFormat)
    (modelBones : BoneMap) (clip : AnimationClip) (name : CharState) :
  List.length (tracks (processClip baseFormat modelBones clip name false))
  = List.length (tracks clip).
Proof.
  rewrite processClip_tracks.
  apply (flat_map_option_total (processTrack baseFormat modelBones false)).
  intros track _. apply processTrack_no_strip.
Qed.

(** X12: against a model without any bone nothing can be matched: the
    dual-format retargeter hands every track back unchanged, in either
    format and with or without stripping, and the single-format retargeter
    returns a clip without tracks. *)
Theorem processClip_empty_map (baseFormat : ModelFormat)
    (clip : AnimationClip) (name : CharState) (stripPosition : bool) :
  tracks (processClip baseFormat [] clip name stripPosition) = tracks clip /\
  tracks (Legacy.processClip [] clip name stripPosition) = [].
Proof.
  split.
  - rewrite processClip_tracks.
    apply (flat_map_option_id (processTrack baseFormat [] stripPosition)).
    intros track _. unfold processTrack, processUnresolved.
    cbn [findBoneFuzzy mapGet findBoneLoop jsOr truthyOpt].
    destruct (isGlb baseFormat); [| reflexivity].
    destruct (_ && _); reflexivity.
  - unfold Legacy.processClip. cbn [tracks].
    induction (tracks clip) as [| t rest IH]; [reflexivity | exact IH].
Qed.

Section ZeroXZFacts.

Open Scope nat_scope.

(** induction over a list three elements at a time *)
Lemma list_ind3 {A : Type} (P : list A -> Prop) :
  P [] -> (forall a, P [a]) -> (forall a b, P [a; b]) ->
  (forall a b c rest, P rest -> P (a :: b :: c :: rest)) ->
  forall l, P l.
Proof.
  intros H0 H1 H2 H3.
  assert (H : forall l, P l /\ (forall a, P (a :: l))
                        /\ (forall a b, P (a :: b :: l))).
  { induction l as [| x rest [IHa [IHb IHc]]].
    - repeat split; auto.
    - repeat split; auto. }
  intros l. apply H.
Qed.

Lemma zeroXZ_length (values : list R) :
  List.length (Legacy.zeroXZ values) = List.length values.
Proof.
  induction values as [| a | a b | a b c rest IH] using list_ind3;
    try reflexivity.
  cbn [Legacy.zeroXZ List.length]. now rewrite IH.
Qed.

Lemma nth_nil_default (i : nat) (d : R) : nth i [] d = d.
Proof. destruct i; reflexivity. Qed.

Lemma zeroXZ_nth (values : list R) :
  forall i,
    nth i (Legacy.zeroXZ values) 0%R
    = if i mod 3 =? 1 then nth i values 0%R else 0%R.
Proof.
  induction values as [| a | a b | a b c rest IH] using list_ind3; intros i.
  - cbn [Legacy.zeroXZ]. rewrite nth_nil_default.
    destruct (i mod 3 =? 1); reflexivity.
  - destruct i as [| i]; [reflexivity |].
    cbn [Legacy.zeroXZ]. rewrite !nth_overflow by (simpl; lia).
    destruct (S i mod 3 =? 1); reflexivity.
  - destruct i as [| [| i]]; try reflexivity.
    cbn [Legacy.zeroXZ]. rewrite !nth_overflow by (simpl; lia).
    destruct (S (S i) mod 3 =? 1); reflexivity.
  - destruct i as [| [| [| i]]]; try reflexivity.
    cbn [Legacy.zeroXZ nth]. rewrite IH.
    replace (S (S (S i)) mod 3) with (i mod 3); [reflexivity |].
    change (S (S (S i))) with (3 + i).
    rewrite <- (Nat.Div0.mod_add i 1 3). f_equal. lia.
Qed.

End ZeroXZFacts.

(** X13: the flattening of a root position track keeps the number of values,
    copies every Y component (index 1 modulo 3) and sets every other
    component to zero; flattening twice changes nothing more. *)
Theorem zeroXZ_keeps_Y (values : list R) (i : nat) :
  List.length (Legacy.zeroXZ values) = List.length values /\
  ((i mod 3 = 1)%nat -> nth i (Legacy.zeroXZ values) 0%R = nth i values 0%R) /\
  ((i mod 3 <> 1)%nat -> nth i (Legacy.zeroXZ values) 0%R = 0%R) /\
  Legacy.zeroXZ (Legacy.zeroXZ values) = Legacy.zeroXZ values.
Proof.
  split; [apply zeroXZ_length |]. split; [| split].
  - intros Hi. rewrite zeroXZ_nth, Hi. reflexivity.
  - intros Hi. rewrite zeroXZ_nth.
    destruct (i mod 3 =? 1)%nat eqn:He; [| reflexivity].
    apply Nat.eqb_eq in He. contradiction.
  - induction values as [| a | a b | a b c rest IH] using list_ind3;
      try reflexivity.
    cbn [Legacy.zeroXZ]. now rewrite IH.
Qed.

Lemma zeroXZ_keeps_Y_witness :
  nth 4 (Legacy.zeroXZ [1; 2; 3; 4; 5; 6]%R) 0%R = nth 4 [1; 2; 3; 4; 5; 6]%R 0%R
  /\ nth 3 (Legacy.zeroXZ [1; 2; 3; 4; 5; 6]%R) 0%R = 0%R.
Proof.
  split.
  - apply (zeroXZ_keeps_Y [1; 2; 3; 4; 5; 6]%R 4). reflexivity.
  - apply (zeroXZ_keeps_Y [1; 2; 3; 4; 5; 6]%R 3). discriminate.
Defined.

(** ** The frame loop over several frames *)

Section FrameFacts.

Variables (target : Vector3) (running : bool) (cfg : StairConfig)
          (delta : R).

Let props : Props := mkProps (Some target) running false cfg.
Let moveDist : R := moveAmount running delta.

Let stepped : Vector3 -> Vector3 := steppedPosition target running cfg delta.

Lemma useFrame_moving (currentPos camera : Vector3) :
  ~ horizontalDistance currentPos target < 0.2 ->
  useFrame props delta (mkFrame (Some currentPos) camera)
  = (mkFrame (Some (stepped currentPos))
             (cameraStep props delta (stepped currentPos) camera),
     []).
Proof.
  intros Hfar.
  assert (Hpos : horizontalDistance currentPos target <> 0) by lra.
  unfold useFrame, moveStep, props, stepped, steppedPosition, moveAmount.
  cbn [group isCelebrating targetPos isRunning cameraPosition].
  rewrite distanceTo_flat.
  destruct (Rlt_dec (horizontalDistance currentPos target) 0.2);
    [contradiction |].
  rewrite (normalize_flat _ _ Hpos). reflexivity.
Qed.

Lemma useFrame_stopping (currentPos camera : Vector3) :
  horizontalDistance currentPos target < 0.2 ->
  snd (useFrame props delta (mkFrame (Some currentPos) camera))
  = [OnStop currentPos; SetCharState IDLE].
Proof.
  intros Hnear. unfold useFrame, moveStep, props.
  cbn [group isCelebrating targetPos].
  rewrite distanceTo_flat.
  destruct (Rlt_dec (horizontalDistance currentPos target) 0.2);
    [reflexivity | contradiction].
Qed.

Lemma distance_after_step (currentPos : Vector3) :
  horizontalDistance currentPos target <> 0 ->
  horizontalDistance (stepped currentPos) target
  = Rabs (horizontalDistance currentPos target - moveDist).
Proof.
  intros Hd. pose proof (horizontalDistance_square target currentPos) as Hsq.
  unfold stepped, steppedPosition. fold moveDist.
  set (d := horizontalDistance currentPos target) in *.
  unfold horizontalDistance at 1. cbn [vx vz].
  rewrite <- sqrt_Rsqr_abs. f_equal. unfold Rsqr.
  transitivity
    (((vx currentPos - vx target) * (vx currentPos - vx target)
      + (vz currentPos - vz target) * (vz currentPos - vz target))
     * ((d - moveDist) * (d - moveDist) / (d * d))).
  - field. exact Hd.
  - rewrite <- Hsq. field. exact Hd.
Qed.

End FrameFacts.




(** X15: a moving frame changes the X/Z distance to the target from [d] to
    [|d - m|], where [m = min (speed * delta) 0.5] is the step: it comes
    closer by exactly [m] when [0 <= m <= d], and lands [m - d] behind the
    target when the step is longer than the distance. *)
Theorem useFrame_distance (target currentPos camera : Vector3)
    (running : bool) (cfg : StairConfig) (delta : R) :
  ~ horizontalDistance currentPos target < 0.2 ->
  exists pos,
    group (fst (useFrame (mkProps (Some target) running false cfg) delta
                  (mkFrame (Some currentPos) camera))) = Some pos /\
    horizontalDistance pos target
    = Rabs (horizontalDistance currentPos target - moveAmount running delta).
Proof.
  intros Hfar. rewrite useFrame_moving by exact Hfar.
  eexists. split; [reflexivity |].
  apply distance_after_step. lra.
Qed.

Lemma useFrame_distance_witness :
  exists pos,
    group (fst (useFrame (mkProps (Some (vec3 0 0 (-4))) false false redCarpet)
                  0.1 (mkFrame (Some (vec3 0 0 8)) (vec3 0 3 14)))) = Some pos
    /\ horizontalDistance pos (vec3 0 0 (-4))
       = Rabs (horizontalDistance (vec3 0 0 8) (vec3 0 0 (-4))
               - moveAmount false 0.1).
Proof.
  apply useFrame_distance.
  unfold horizontalDistance. simpl.
  replace ((0 - 0) * (0 - 0) + (8 - -4) * (8 - -4)) with (12 * 12) by ring.
  rewrite sqrt_square by lra. lra.
Defined.

Section Journey.

Variables (target : Vector3) (running : bool) (cfg : StairConfig)
          (delta : R).

Let props : Props := mkProps (Some target) running false cfg.
Let m : R := moveAmount running delta.

Lemma horizontalDistance_nonneg (a b : Vector3) : 0 <= horizontalDistance a b.
Proof. unfold horizontalDistance. apply sqrt_pos. Qed.

Lemma stopsWithin_S (p : Props) (n : nat) (f : Frame) :
  stopsWithin p delta (S n) f
  = firesStop (snd (useFrame p delta f))
    || stopsWithin p delta n (fst (useFrame p delta f)).
Proof. reflexivity. Qed.

(** steps no longer than the stop radius cannot miss it *)
Lemma stopsWithin_bound :
  0 < m -> m <= 0.2 ->
  forall (k : nat) (currentPos camera : Vector3),
    horizontalDistance currentPos target < 0.2 + INR k * m ->
    stopsWithin props delta (S k) (mkFrame (Some currentPos) camera) = true.
Proof.
  intros Hm0 Hm1. induction k as [| k IH]; intros currentPos camera Hd.
  - simpl in Hd. rewrite stopsWithin_S. unfold props.
    rewrite useFrame_stopping by lra. reflexivity.
  - rewrite stopsWithin_S.
    destruct (Rlt_dec (horizontalDistance currentPos target) 0.2)
      as [Hnear | Hfar].
    + unfold props. rewrite useFrame_stopping by exact Hnear. reflexivity.
    + unfold props in *. rewrite !useFrame_moving by exact Hfar.
      cbn [fst snd firesStop existsb orb]. apply IH.
      rewrite distance_after_step by lra. fold m.
      rewrite S_INR in Hd. rewrite Rabs_pos_eq by lra. lra.
Qed.

(** steps that carry over the stop radius and out of it again never stop *)
Lemma stopsWithin_never :
  forall (n : nat) (currentPos camera : Vector3),
    0.2 <= horizontalDistance currentPos target <= m - 0.2 ->
    stopsWithin props delta n (mkFrame (Some currentPos) camera) = false.
Proof.
  induction n as [| n IH]; intros currentPos camera Hd; [reflexivity |].
  rewrite stopsWithin_S. unfold props in *.
  rewrite !useFrame_moving by lra.
  cbn [fst snd firesStop existsb orb]. apply IH.
  rewrite distance_after_step by lra. fold m.
  rewrite Rabs_left1 by lra. lra.
Qed.

End Journey.

(** X16: with a positive frame time whose step [speed * delta] is at most the
    stop radius 0.2, a character heading for a target always arrives: from
    any position, [onStop] is called within finitely many frames; within
    [k + 1] frames when the distance is below [0.2 + k * speed * delta]. *)
Theorem useFrame_reaches_target (target currentPos camera : Vector3)
    (running : bool) (cfg : StairConfig) (delta : R) :
  0 < delta ->
  (if running then 5.0 else 2.0) * delta <= 0.2 ->
  (forall k : nat,
     horizontalDistance currentPos target
     < 0.2 + INR k * ((if running then 5.0 else 2.0) * delta) ->
     stopsWithin (mkProps (Some target) running false cfg) delta (S k)
       (mkFrame (Some currentPos) camera) = true) /\
  exists n,
    stopsWithin (mkProps (Some target) running false cfg) delta n
      (mkFrame (Some currentPos) camera) = true.
Proof.
  intros Hdt Hstep.
  assert (Hm : moveAmount running delta
               = (if running then 5.0 else 2.0) * delta).
  { unfold moveAmount. apply Rmin_left. lra. }
  assert (Hm0 : 0 < moveAmount running delta).
  { rewrite Hm. destruct running; lra. }
  assert (Hbound : forall k : nat,
            horizontalDistance currentPos target
            < 0.2 + INR k * ((if running then 5.0 else 2.0) * delta) ->
            stopsWithin (mkProps (Some target) running false cfg) delta (S k)
              (mkFrame (Some currentPos) camera) = true).
  { intros k Hk. apply stopsWithin_bound; rewrite ?Hm; lra. }
  split; [exact Hbound |].
  set (d := horizontalDistance currentPos target) in *.
  set (s := (if running then 5.0 else 2.0) * delta) in *.
  assert (Hs : 0 < s) by (rewrite <- Hm; exact Hm0).
  assert (Hd : 0 <= d) by apply horizontalDistance_nonneg.
  destruct (archimed (d / s)) as [Hup _].
  assert (Hdiv : 0 <= d / s).
  { unfold Rdiv. apply Rmult_le_pos; [exact Hd |].
    left. now apply Rinv_0_lt_compat. }
  assert (Hz : (0 <= up (d / s))%Z).
  { apply le_IZR. lra. }
  exists (S (Z.to_nat (up (d / s)))). apply Hbound.
  rewrite INR_IZR_INZ, Z2Nat.id by exact Hz.
  assert (d < IZR (up (d / s)) * s).
  { apply (Rmult_lt_compat_r s) in Hup; [| exact Hs].
    unfold Rdiv in Hup. rewrite Rmult_assoc, Rinv_l, Rmult_1_r in Hup by lra.
    lra. }
  lra.
Qed.

Lemma useFrame_reaches_target_witness :
  exists n,
    stopsWithin (mkProps (Some (vec3 0 0 (-4))) false false redCarpet) 0.1 n
      (mkFrame (Some (vec3 0 0 8)) (vec3 0 3 14)) = true.
Proof.
  apply (useFrame_reaches_target (vec3 0 0 (-4)) (vec3 0 0 8) (vec3 0 3 14)
           false redCarpet 0.1); lra.
Defined.

(** X17: a long step can jump over the stop radius for ever: when the step
    [m = min (speed * delta) 0.5] is at least 0.4 and the distance to the
    target lies between 0.2 and [m - 0.2], every frame lands on the other
    side of the target, again between 0.2 and [m - 0.2] away, and [onStop]
    is never called however many frames follow. *)
Theorem useFrame_overshoots_forever (target currentPos camera : Vector3)
    (running : bool) (cfg : StairConfig) (delta : R) (n : nat) :
  0.2 <= horizontalDistance currentPos target
      <= moveAmount running delta - 0.2 ->
  stopsWithin (mkProps (Some target) running false cfg) delta n
    (mkFrame (Some currentPos) camera) = false.
Proof.
  intros Hd. now apply stopsWithin_never.
Qed.

Lemma useFrame_overshoots_forever_witness :
  stopsWithin (mkProps (Some (vec3 0 0 0.25)) true false redCarpet) 0.1 1000
    (mkFrame (Some (vec3 0 0 0)) (vec3 0 3 6)) = false.
Proof.
  apply useFrame_overshoots_forever.
  assert (Hd : horizontalDistance (vec3 0 0 0) (vec3 0 0 0.25) = 0.25).
  { unfold horizontalDistance. simpl.
    replace ((0 - 0) * (0 - 0) + (0 - 0.25) * (0 - 0.25))
      with (0.25 * 0.25) by lra.
    apply sqrt_square. lra. }
  assert (Hm : moveAmount true 0.1 = 0.5).
  { unfold moveAmount. replace (5.0 * 0.1) with 0.5 by lra.
    apply Rmin_left. lra. }
  rewrite Hd, Hm. lra.
Defined.

(** X18: while celebrating, every frame moves the character the same
    fraction [a = min 0.05 (delta / 2)] of the way to the point
    [(0, platformHeight, (slopeEndZ + wallZ) / 2)]: after [n] frames each
    coordinate's offset from that point is [(1 - a) ^ n] times what it
    was. *)
Theorem framesAfter_celebrating (tp : option Vector3) (running : bool)
    (cfg : StairConfig) (delta : R) (n : nat)
    (currentPos camera : Vector3) :
  exists pos,
    group (framesAfter (mkProps tp running true cfg) delta n
             (mkFrame (Some currentPos) camera)) = Some pos /\
    vx pos = (1 - Rmin 0.05 (delta * 0.5)) ^ n * vx currentPos /\
    vy pos - height cfg
    = (1 - Rmin 0.05 (delta * 0.5)) ^ n * (vy currentPos - height cfg) /\
    vz pos - (slopeEndZ cfg + wallZ cfg) / 2
    = (1 - Rmin 0.05 (delta * 0.5)) ^ n
      * (vz currentPos - (slopeEndZ cfg + wallZ cfg) / 2).
Proof.
  revert currentPos camera.
  induction n as [| n IH]; intros currentPos camera.
  - exists currentPos. cbn [framesAfter group pow]. repeat split; ring.
  - cbn [framesAfter]. unfold useFrame at 1.
    cbn [group moveStep isCelebrating fst heightStep stairConfig].
    destruct (IH (Vec.lerp currentPos
                    (vec3 0 (height cfg) ((slopeEndZ cfg + wallZ cfg) / 2))
                    (Rmin 0.05 (delta * 0.5)))
                 (cameraStep (mkProps tp running true cfg) delta
                    (Vec.lerp currentPos
                       (vec3 0 (height cfg)
                          ((slopeEndZ cfg + wallZ cfg) / 2))
                       (Rmin 0.05 (delta * 0.5)))
                    camera))
      as [pos [Hpos [Hx [Hy Hz]]]].
    exists pos. split; [exact Hpos |].
    rewrite Hx, Hy, Hz. unfold Vec.lerp. cbn [vx vy vz pow].
    repeat split; ring.
Qed.

(** ** The model normaliser *)

(** X19: when the measured box is taller than 0.001, the scale the layout
    effect sets is positive and makes the box exactly 1.8 tall; for a GLB
    model measured on its skinned mesh the position it sets puts the scaled
    box's lowest point at height 0 and its centre at X = 0 and Z = 0, while
    an FBX model stays at the origin. *)
Theorem layoutEffect_normalises (box whole : Box3) (modelScale : R) :
  vy (getSize box) > 0.001 ->
  (forall baseFormat,
     fst (layoutEffect baseFormat (Some (Some box)) whole modelScale) > 0 /\
     fst (layoutEffect baseFormat (Some (Some box)) whole modelScale)
     * vy (getSize box) = 1.8) /\
  (vy (bmin box)
   * fst (layoutEffect GLB (Some (Some box)) whole modelScale)
   + vy (snd (layoutEffect GLB (Some (Some box)) whole modelScale)) = 0 /\
   vx (getCenter box)
   * fst (layoutEffect GLB (Some (Some box)) whole modelScale)
   + vx (snd (layoutEffect GLB (Some (Some box)) whole modelScale)) = 0 /\
   vz (getCenter box)
   * fst (layoutEffect GLB (Some (Some box)) whole modelScale)
   + vz (snd (layoutEffect GLB (Some (Some box)) whole modelScale)) = 0) /\
  snd (layoutEffect FBX (Some (Some box)) whole modelScale) = vec3 0 0 0.
Proof.
  intros Hsize.
  assert (Hinv : 1.8 / vy (getSize box) > 0).
  { unfold Rdiv. apply Rmult_gt_0_compat; [lra |].
    apply Rinv_0_lt_compat. lra. }
  unfold layoutEffect.
  destruct (Rgt_dec (vy (getSize box)) 0.001) as [_ | Hn];
    [| contradiction].
  split; [| split].
  - intros baseFormat. destruct (isGlb baseFormat); cbn [fst];
      (split; [exact Hinv | field; lra]).
  - cbn [isGlb fst snd vx vy vz]. repeat split; ring.
  - reflexivity.
Qed.

Lemma layoutEffect_normalises_witness :
  fst (layoutEffect GLB (Some (Some (box3 (vec3 (-1) 2 (-1)) (vec3 1 5.6 1))))
         (box3 (vec3 0 0 0) (vec3 0 0 0)) 0.01)
  * vy (getSize (box3 (vec3 (-1) 2 (-1)) (vec3 1 5.6 1))) = 1.8.
Proof.
  assert (Htall : vy (getSize (box3 (vec3 (-1) 2 (-1)) (vec3 1 5.6 1)))
                  > 0.001).
  { unfold getSize, boxIsEmpty. simpl.
    destruct (Rlt_dec 1 (-1)); [lra |].
    destruct (Rlt_dec 5.6 2); [lra |].
    destruct (Rlt_dec 1 (-1)); [lra |]. simpl. lra. }
  destruct (layoutEffect_normalises (box3 (vec3 (-1) 2 (-1)) (vec3 1 5.6 1))
              (box3 (vec3 0 0 0) (vec3 0 0 0)) 0.01 Htall) as [Hscale _].
  apply Hscale.
Defined.

(** ** The state effect and the click on the character *)

(** X20: the state effect settles at once: running it again on its own
    result, with the same props, changes nothing, so the effect, which lists
    [charState] among its dependencies, cannot loop. *)
Theorem stateEffect_settles (tp : option Vector3) (running celebrating : bool)
    (charState : CharState) :
  stateEffect tp running celebrating
    (stateEffect tp running celebrating charState)
  = stateEffect tp running celebrating charState.
Proof.
  destruct celebrating, tp, running, charState; reflexivity.
Qed.

(** X21: a click on the character is ignored while celebrating; with a
    target set it stops the movement and sets [IDLE]; with no target it
    switches [DANCE] to [IDLE] and every other state to [DANCE], and the
    state effect, run next with no target, leaves that choice alone. *)
Theorem handlePointerDown_toggle (tp : option Vector3)
    (target position : Vector3) (running : bool) (cfg : StairConfig)
    (camera : Vector3) (charState : CharState) :
  handlePointerDown (mkProps tp running true cfg)
    (mkFrame (Some position) camera) charState = [] /\
  handlePointerDown (mkProps (Some target) running false cfg)
    (mkFrame (Some position) camera) charState
  = [OnStop position; SetCharState IDLE] /\
  applyEffects
    (handlePointerDown (mkProps None running false cfg)
       (mkFrame (Some position) camera) charState) charState
  = (match charState with DANCE => IDLE | _ => DANCE end) /\
  stateEffect None running false
    (applyEffects
       (handlePointerDown (mkProps None running false cfg)
          (mkFrame (Some position) camera) charState) charState)
  = applyEffects
      (handlePointerDown (mkProps None running false cfg)
         (mkFrame (Some position) camera) charState) charState.
Proof.
  repeat split; destruct charState; reflexivity.
Qed.

(** ** The scene container *)

Section ContainerFacts.

Import SceneContainer.

Lemma clamp_inside (v lo hi : R) : lo <= v <= hi -> clamp v lo hi = v.
Proof.
  intros H. unfold clamp, Rmax, Rmin.
  destruct (Rle_dec hi v); destruct (Rle_dec lo _); lra.
Qed.

Lemma clamp_range (v lo hi : R) : lo <= hi -> lo <= clamp v lo hi <= hi.
Proof.
  intros H. unfold clamp, Rmax, Rmin.
  destruct (Rle_dec hi v); destruct (Rle_dec lo _); lra.
Qed.

Lemma INR_stepCount : INR stepCount = 24.
Proof. unfold stepCount. rewrite INR_IZR_INZ. reflexivity. Qed.

Lemma INR_below (i n : nat) : (i < n)%nat -> 0 <= INR i <= INR n - 1.
Proof.
  intros H. split; [apply pos_INR |].
  apply le_INR in H. rewrite S_INR in H. lra.
Qed.

Lemma heightAt_on_slope (z : R) :
  SLOPE_END_Z <= z <= STAIR_START_Z ->
  heightAt stairConfig z = (STAIR_START_Z - z) / SLOPE_LENGTH * STAIR_HEIGHT.
Proof.
  unfold SLOPE_END_Z, STAIR_START_Z, SLOPE_LENGTH, STAIR_HEIGHT.
  intros H. unfold heightAt, stairConfig. cbn [slopeEndZ startZ height].
  unfold SLOPE_END_Z, STAIR_START_Z, STAIR_HEIGHT.
  destruct (Rlt_dec z (-4)); [lra |].
  rewrite clamp_inside; [reflexivity |]. lra.
Qed.

Lemma heightAt_on_platform (z : R) :
  z < SLOPE_END_Z -> heightAt stairConfig z = STAIR_HEIGHT.
Proof.
  intros H. unfold heightAt, stairConfig. cbn [slopeEndZ startZ height].
  destruct (Rlt_dec z SLOPE_END_Z); [reflexivity | contradiction].
Qed.

Lemma allChars_trimStart (x : string) :
  allChars isWhiteSpace (trimStart x) = allChars isWhiteSpace x.
Proof.
  induction x as [| c t IH]; [reflexivity |]. cbn [trimStart].
  destruct (isWhiteSpace c) eqn:Hc; [| reflexivity].
  cbn [allChars]. rewrite Hc. exact IH.
Qed.

Lemma trimEnd_empty (x : string) :
  trimEnd x = EmptyString <-> allChars isWhiteSpace x = true.
Proof.
  induction x as [| c t IH]; [split; reflexivity |].
  cbn [trimEnd allChars]. destruct (trimEnd t) as [| c' t'] eqn:Ht.
  - destruct (isWhiteSpace c).
    + split; [intros _; now apply IH | reflexivity].
    + split; discriminate.
  - split; [discriminate |]. intros H. apply andb_true_iff in H as [_ H].
    apply IH in H. discriminate.
Qed.

Lemma trim_empty (x : string) :
  trim x = EmptyString <-> allChars isWhiteSpace x = true.
Proof.
  unfold trim. rewrite trimEnd_empty, allChars_trimStart. reflexivity.
Qed.

End ContainerFacts.

(** X22: the point a pointer event is turned into keeps its height, lies on
    the carpet, X within [-2.2, 2.2] and Z within [-11, 10], so never behind
    the wall at Z = -12; a point already there is returned as it is, and
    restricting twice is restricting once. *)
Theorem getRestrictedPoint_bounds (point : Vector3) :
  vy (SceneContainer.getRestrictedPoint point) = vy point /\
  -2.2 <= vx (SceneContainer.getRestrictedPoint point) <= 2.2 /\
  -11 <= vz (SceneContainer.getRestrictedPoint point) <= 10 /\
  (-2.2 <= vx point <= 2.2 -> -11 <= vz point <= 10 ->
   SceneContainer.getRestrictedPoint point = point) /\
  SceneContainer.getRestrictedPoint (SceneContainer.getRestrictedPoint point)
  = SceneContainer.getRestrictedPoint point.
Proof.
  assert (Hx : forall v, -2.2 <= clamp v (- SceneContainer.CARPET_WIDTH_LIMIT)
                                   SceneContainer.CARPET_WIDTH_LIMIT <= 2.2).
  { intros v.
    pose proof (clamp_range v (- SceneContainer.CARPET_WIDTH_LIMIT)
                  SceneContainer.CARPET_WIDTH_LIMIT) as H.
    unfold SceneContainer.CARPET_WIDTH_LIMIT in *. lra. }
  assert (Hz : forall v, -11 <= clamp v (SceneContainer.WALL_Z + 1)
                                  (SceneContainer.STAIR_START_Z + 2) <= 10).
  { intros v.
    pose proof (clamp_range v (SceneContainer.WALL_Z + 1)
                  (SceneContainer.STAIR_START_Z + 2)) as H.
    unfold SceneContainer.WALL_Z, SceneContainer.STAIR_START_Z in *. lra. }
  assert (Hfix : forall q, -2.2 <= vx q <= 2.2 -> -11 <= vz q <= 10 ->
                           SceneContainer.getRestrictedPoint q = q).
  { intros [x y z] Hqx Hqz. unfold SceneContainer.getRestrictedPoint.
    cbn [vx vy vz] in *. rewrite !clamp_inside; [reflexivity | |];
      unfold SceneContainer.WALL_Z, SceneContainer.STAIR_START_Z,
        SceneContainer.CARPET_WIDTH_LIMIT; lra. }
  split; [reflexivity |]. split; [apply Hx |]. split; [apply Hz |].
  split; [apply Hfix |]. apply Hfix; [apply Hx | apply Hz].
Qed.

Lemma getRestrictedPoint_bounds_witness :
  SceneContainer.getRestrictedPoint (vec3 1 5 (-8)) = vec3 1 5 (-8).
Proof.
  apply (getRestrictedPoint_bounds (vec3 1 5 (-8))); simpl; lra.
Defined.

(** X23: the staircase is built on the surface the character walks on: the
    centre of each of the 24 steps, and the foot of every stanchion, on the
    slope and on the platform, is at the terrain height of its Z. *)
Theorem staircase_on_terrain :
  (forall s, In s SceneContainer.steps ->
     vy (SceneContainer.position s)
     = heightAt SceneContainer.stairConfig (vz (SceneContainer.position s)))
  /\
  (forall l r, In (l, r) SceneContainer.posts ->
     vy l = heightAt SceneContainer.stairConfig (vz l) /\
     vy r = heightAt SceneContainer.stairConfig (vz r)).
Proof.
  split.
  - intros s Hin. unfold SceneContainer.steps in Hin.
    apply in_map_iff in Hin as [i [<- Hi]]. apply in_seq in Hi.
    pose proof (INR_below i SceneContainer.stepCount (proj2 Hi)) as Hb.
    unfold SceneContainer.step. cbn [SceneContainer.position vy vz].
    unfold SceneContainer.stepDepth, SceneContainer.stepHeight.
    rewrite INR_stepCount in *.
    rewrite heightAt_on_slope;
      unfold SceneContainer.SLOPE_LENGTH, SceneContainer.STAIR_START_Z,
        SceneContainer.SLOPE_END_Z, SceneContainer.STAIR_HEIGHT;
      [field | lra].
  - intros l r Hin. unfold SceneContainer.posts in Hin.
    apply in_app_or in Hin as [Hin | Hin];
      apply in_map_iff in Hin as [i [Heq Hi]]; apply in_seq in Hi.
    + pose proof (INR_below i SceneContainer.slopePostCount (proj2 Hi)) as Hb.
      unfold SceneContainer.slopePost in Heq. injection Heq as <- <-.
      cbn [vy vz].
      replace (INR SceneContainer.slopePostCount) with 6 in *
        by (unfold SceneContainer.slopePostCount; rewrite INR_IZR_INZ;
            reflexivity).
      rewrite heightAt_on_slope;
        unfold SceneContainer.SLOPE_LENGTH, SceneContainer.STAIR_START_Z,
          SceneContainer.SLOPE_END_Z, SceneContainer.STAIR_HEIGHT;
        [split; field | lra].
    + assert (Hpos : 1 <= INR i).
      { destruct Hi as [Hi _]. apply le_INR in Hi. simpl in Hi. lra. }
      unfold SceneContainer.platformPost in Heq. injection Heq as <- <-.
      cbn [vy vz].
      replace (INR SceneContainer.platformPostCount) with 4
        by (unfold SceneContainer.platformPostCount; rewrite INR_IZR_INZ;
            reflexivity).
      replace (Rabs (SceneContainer.WALL_Z - SceneContainer.SLOPE_END_Z))
        with 8.
      * rewrite heightAt_on_platform; [split; reflexivity |].
        unfold SceneContainer.SLOPE_END_Z. lra.
      * unfold SceneContainer.WALL_Z, SceneContainer.SLOPE_END_Z.
        rewrite Rabs_left; lra.
Qed.

Lemma staircase_on_terrain_witness :
  vy (SceneContainer.position (SceneContainer.step 3))
  = heightAt SceneContainer.stairConfig
      (vz (SceneContainer.position (SceneContainer.step 3))).
Proof.
  apply (proj1 staircase_on_terrain).
  unfold SceneContainer.steps. apply in_map. apply in_seq.
  unfold SceneContainer.stepCount. lia.
Defined.

(** X24: every member of the audience stands at the terrain height of the
    depth drawn for it: for a random number in [0, 1) the height given to
    the crowd member is the height the character has at that Z. *)
Theorem crowd_on_terrain (r : R) :
  0 <= r < 1 ->
  SceneContainer.crowdY (SceneContainer.crowdZ r)
  = heightAt SceneContainer.stairConfig (SceneContainer.crowdZ r) /\
  SceneContainer.WALL_Z < SceneContainer.crowdZ r
                        <= SceneContainer.STAIR_START_Z.
Proof.
  intros Hr.
  assert (Hz : SceneContainer.WALL_Z < SceneContainer.crowdZ r
                                     <= SceneContainer.STAIR_START_Z).
  { unfold SceneContainer.crowdZ, SceneContainer.WALL_Z,
      SceneContainer.STAIR_START_Z. lra. }
  split; [| exact Hz]. unfold SceneContainer.crowdY.
  destruct (Rlt_dec (SceneContainer.crowdZ r) SceneContainer.SLOPE_END_Z)
    as [Hlt | Hge].
  - now rewrite heightAt_on_platform.
  - rewrite heightAt_on_slope; [reflexivity | lra].
Qed.

Lemma crowd_on_terrain_witness :
  SceneContainer.crowdY (SceneContainer.crowdZ 0.5)
  = heightAt SceneContainer.stairConfig (SceneContainer.crowdZ 0.5).
Proof.
  apply (crowd_on_terrain 0.5). lra.
Defined.

(** X25: submitting the signature starts the celebration exactly when the
    input holds a character that is not white space; the signature is then
    the trimmed input and the input box closes.  A blank input changes
    nothing. *)
Theorem submitSignature_needs_text (s : SceneContainer.State) :
  (allChars SceneContainer.isWhiteSpace (SceneContainer.inputValue s) = true
   -> SceneContainer.submitSignature s = s) /\
  (allChars SceneContainer.isWhiteSpace (SceneContainer.inputValue s) = false
   -> SceneContainer.isCelebrating (SceneContainer.submitSignature s) = true
      /\ SceneContainer.showInput (SceneContainer.submitSignature s) = false
      /\ SceneContainer.signature (SceneContainer.submitSignature s)
         = SceneContainer.trim (SceneContainer.inputValue s)
      /\ SceneContainer.signature (SceneContainer.submitSignature s) <> "").
Proof.
  unfold SceneContainer.submitSignature, truthy. split; intros H.
  - apply trim_empty in H. rewrite H. reflexivity.
  - destruct (SceneContainer.trim (SceneContainer.inputValue s) =? "")%string
      eqn:Ht.
    + apply String.eqb_eq, trim_empty in Ht. congruence.
    + apply String.eqb_neq in Ht. cbn. repeat split. exact Ht.
Qed.

Lemma submitSignature_needs_text_witness :
  SceneContainer.submitSignature
    (SceneContainer.mkState None false true "" false "   ")
  = SceneContainer.mkState None false true "" false "   " /\
  SceneContainer.signature
    (SceneContainer.submitSignature
       (SceneContainer.mkState None false true "" false "  Ada "))
  = "Ada".
Proof.
  split.
  - apply (submitSignature_needs_text
             (SceneContainer.mkState None false true "" false "   ")).
    reflexivity.
  - destruct (submitSignature_needs_text
                (SceneContainer.mkState None false true "" false "  Ada "))
      as [_ H].
    destruct (H eq_refl) as [_ [_ [Hsig _]]]. exact Hsig.
Defined.


(** ** The clips handed to the mixer *)

(** X27: the animation memo yields at most four clips, one for each asset
    that holds a first animation and none for an asset without an
    [animations] array, and their names are pairwise distinct, so each
    state's action is one clip. *)
Theorem buildAnimations_names (baseFormat : ModelFormat) (model : Object3D)
    (idleModel walkModel runModel danceModel : Asset) :
  NoDup (map clipName
           (buildAnimations baseFormat model idleModel walkModel runModel
              danceModel)) /\
  (List.length (buildAnimations baseFormat model idleModel walkModel runModel
                  danceModel) <= 4)%nat /\
  buildAnimations baseFormat model (mkAsset None) (mkAsset None)
    (mkAsset None) (mkAsset None) = [].
Proof.
  unfold buildAnimations, pushFirst.
  split; [| split; [| reflexivity]];
    destruct (getAnimations idleModel), (getAnimations walkModel),
      (getAnimations runModel), (getAnimations danceModel);
    cbn [app map clipName processClip charStateName List.length];
    try lia;
    repeat (constructor; [cbn [In]; intuition discriminate |]);
    constructor.
Qed.

(** ** Track addresses *)

Section AddressFacts.

Open Scope nat_scope.

Lemma lastIndexOfChar_none (c : ascii) (s : string) :
  lastIndexOfChar c s = None <->
  allChars (fun a => negb (Ascii.eqb a c)) s = true.
Proof.
  induction s as [| a t IH]; [split; reflexivity |].
  cbn [lastIndexOfChar allChars].
  destruct (lastIndexOfChar c t) as [i |].
  - split; [discriminate |]. intros H. apply andb_true_iff in H as [_ H].
    apply IH in H. discriminate.
  - destruct (Ascii.eqb a c); cbn [negb andb].
    + split; discriminate.
    + split; [intros _; now apply IH | reflexivity].
Qed.

Lemma lastIndexOfChar_app (c : ascii) (b p : string) :
  lastIndexOfChar c p = None ->
  lastIndexOfChar c (b ++ String c p) = Some (String.length b).
Proof.
  intros Hp. induction b as [| a t IH].
  - cbn [append lastIndexOfChar String.length]. rewrite Hp, Ascii.eqb_refl.
    reflexivity.
  - cbn [append lastIndexOfChar String.length]. rewrite IH. reflexivity.
Qed.

Lemma lastIndexOfChar_bound (c : ascii) (s : string) (i : nat) :
  lastIndexOfChar c s = Some i -> i < String.length s.
Proof.
  revert i. induction s as [| a t IH]; intros i; [discriminate |].
  cbn [lastIndexOfChar String.length].
  destruct (lastIndexOfChar c t) as [j |].
  - intros H. injection H as <-. specialize (IH j eq_refl). lia.
  - destruct (Ascii.eqb a c); [| discriminate].
    intros H. injection H as <-. lia.
Qed.

Lemma substring_whole (s : string) : substring 0 (String.length s) s = s.
Proof.
  induction s as [| a t IH]; [reflexivity |].
  cbn [String.length substring]. now rewrite IH.
Qed.

Lemma substring_prefix (b r : string) :
  substring 0 (String.length b) (b ++ r) = b.
Proof.
  induction b as [| a t IH].
  - destruct r; reflexivity.
  - cbn [String.length append substring]. now rewrite IH.
Qed.

Lemma substring_suffix (b r : string) :
  substring (String.length b) (String.length r) (b ++ r) = r.
Proof.
  induction b as [| a t IH]; [apply substring_whole | exact IH].
Qed.

Lemma length_app (a b : string) :
  String.length (a ++ b) = String.length a + String.length b.
Proof.
  induction a as [| c t IH]; [reflexivity |].
  cbn [append String.length]. now rewrite IH.
Qed.

(** the split of the address [bone.property] *)
Lemma split_address (bone property : string) (ts vs : list R) :
  allChars notDot property = true ->
  trackBoneName (mkTrack (address bone property) ts vs) = bone /\
  trackProperty (mkTrack (address bone property) ts vs) = property.
Proof.
  intros Hp. apply (proj2 (lastIndexOfChar_none "." property)) in Hp.
  unfold trackBoneName, trackProperty, lastIndexOf, address.
  cbn [trackName].
  change (bone ++ "." ++ property) with (bone ++ String "." property).
  rewrite (lastIndexOfChar_app "." bone property Hp).
  unfold jsSubstringFrom, jsSubstring, clampIndex.
  rewrite length_app. cbn [String.length].
  split.
  - replace (Z.to_nat (Z.max 0 (Z.min 0 _))) with 0 by lia.
    replace (Z.to_nat (Z.max 0 (Z.min (Z.of_nat (String.length bone)) _)))
      with (String.length bone) by lia.
    rewrite Nat.min_l, Nat.max_r, Nat.sub_0_r by lia.
    apply substring_prefix.
  - replace (Z.to_nat (Z.max 0 (Z.min (Z.of_nat (String.length bone) + 1) _)))
      with (String.length bone + 1) by lia.
    replace (Z.to_nat
               (Z.max 0
                  (Z.min (Z.of_nat
                            (String.length bone + S (String.length property)))
                         _)))
      with (String.length bone + S (String.length property)) by lia.
    rewrite Nat.min_l, Nat.max_r by lia.
    replace (String.length bone + S (String.length property)
             - (String.length bone + 1)) with (String.length property) by lia.
    replace (String.length bone + 1)
      with (String.length (bone ++ ".")%string)
      by (rewrite length_app; reflexivity).
    change (bone ++ String "." property)
      with (bone ++ ("." ++ property))%string.
    replace (bone ++ ("." ++ property))%string
      with ((bone ++ ".") ++ property)%string.
    + apply substring_suffix.
    + clear. induction bone as [| a t IH]; [reflexivity |].
      cbn [append]. now rewrite IH.
Qed.

(** a name without a dot is all property *)
Lemma split_no_dot (name : string) (ts vs : list R) :
  allChars notDot name = true ->
  trackBoneName (mkTrack name ts vs) = EmptyString /\
  trackProperty (mkTrack name ts vs) = name.
Proof.
  intros Hn. apply (proj2 (lastIndexOfChar_none "." name)) in Hn.
  unfold trackBoneName, trackProperty, lastIndexOf. cbn [trackName].
  rewrite Hn. unfold jsSubstringFrom, jsSubstring, clampIndex.
  split.
  - replace (Z.to_nat (Z.max 0 (Z.min 0 _))) with 0 by lia.
    replace (Z.to_nat (Z.max 0 (Z.min (-1) _))) with 0 by lia.
    cbn [Nat.min Nat.max Nat.sub]. destruct name; reflexivity.
  - replace (Z.to_nat (Z.max 0 (Z.min (-1 + 1) _))) with 0 by lia.
    replace (Z.to_nat (Z.max 0 (Z.min (Z.of_nat (String.length name)) _)))
      with (String.length name) by lia.
    rewrite Nat.min_l, Nat.max_r, Nat.sub_0_r by lia.
    apply substring_whole.
Qed.

End AddressFacts.

Lemma lastIndexOfChar_split (c : ascii) (s : string) (i : nat) :
  lastIndexOfChar c s = Some i ->
  exists b p, s = b ++ String c p /\ lastIndexOfChar c p = None.
Proof.
  revert i. induction s as [| a t IH]; intros i; [discriminate |].
  cbn [lastIndexOfChar].
  destruct (lastIndexOfChar c t) as [j |] eqn:Ht.
  - intros _. destruct (IH j eq_refl) as [b [p [-> Hp]]].
    exists (String a b), p. split; [reflexivity | exact Hp].
  - destruct (Ascii.eqb a c) eqn:Ha; [| discriminate].
    intros _. apply Ascii.eqb_eq in Ha. subst a.
    exists EmptyString, t. split; [reflexivity | exact Ht].
Qed.

Lemma track_split_facts (track : KeyframeTrack) :
  allChars notDot (trackProperty track) = true /\
  (allChars notDot (trackName track) = false ->
   address (trackBoneName track) (trackProperty track) = trackName track) /\
  (allChars notDot (trackName track) = true ->
   trackBoneName track = "" /\ trackProperty track = trackName track).
Proof.
  destruct track as [name ts' vs'].
  destruct (lastIndexOfChar "." name) as [i |] eqn:Hlast.
  - destruct (lastIndexOfChar_split _ _ _ Hlast) as [b [p [-> Hp]]].
    assert (Hnd : allChars notDot p = true)
      by now apply (proj1 (lastIndexOfChar_none "." p)).
    destruct (split_address b p ts' vs' Hnd) as [Hb Hprop].
    unfold address in Hb, Hprop.
    change (b ++ "." ++ p) with (b ++ String "." p) in Hb, Hprop.
    rewrite Hb, Hprop. cbn [trackName].
    split; [exact Hnd |]. split; [reflexivity |].
    intros Hall. apply (proj2 (lastIndexOfChar_none "." _)) in Hall.
    rewrite Hall in Hlast. discriminate.
  - assert (Hnd : allChars notDot name = true)
      by now apply (proj1 (lastIndexOfChar_none "." name)).
    destruct (split_no_dot name ts' vs' Hnd) as [Hb Hprop].
    rewrite Hb, Hprop. cbn [trackName].
    split; [exact Hnd |]. split; [| auto].
    rewrite Hnd. discriminate.
Qed.


(** X28: a track name is split at its last dot without loss.  The address
    [bone.property] of a property without a dot splits back into the bone
    and the property; the property read off any track holds no dot; a name
    with a dot is the address of its two halves; and a name without a dot
    has the empty bone name and itself as property. *)
Theorem track_address_round_trip (bone property : string)
    (track : KeyframeTrack) (ts vs : list R) :
  (allChars notDot property = true ->
   trackBoneName (mkTrack (address bone property) ts vs) = bone /\
   trackProperty (mkTrack (address bone property) ts vs) = property) /\
  allChars notDot (trackProperty track) = true /\
  (allChars notDot (trackName track) = false ->
   address (trackBoneName track) (trackProperty track) = trackName track) /\
  (allChars notDot (trackName track) = true ->
   trackBoneName track = "" /\ trackProperty track = trackName track).
Proof.
  split; [apply split_address | apply track_split_facts].
Qed.

Lemma track_address_round_trip_witness :
  trackBoneName (mkTrack (address "Armature.Hips" "position") [] [])
  = "Armature.Hips" /\
  address (trackBoneName hipsPosition) (trackProperty hipsPosition)
  = trackName hipsPosition /\
  trackBoneName (mkTrack "morphTargets" [] []) = "".
Proof.
  destruct (track_address_round_trip "Armature.Hips" "position" hipsPosition
              [] []) as [Ha [_ [Hb _]]].
  destruct (track_address_round_trip "" "" (mkTrack "morphTargets" [] [])
              [] []) as [_ [_ [_ Hc]]].
  split; [| split].
  - apply Ha. reflexivity.
  - apply Hb. reflexivity.
  - apply Hc. reflexivity.
Defined.

(** X29: what the dual-format retargeter pushes parses back: a pushed track
    is either the source track itself or a track whose address splits into a
    bone stored in the map and the source track's property. *)
Theorem processTrack_address_parses (baseFormat : ModelFormat)
    (modelBones : BoneMap) (stripPosition : bool)
    (track pushed : KeyframeTrack) :
  processTrack baseFormat modelBones stripPosition track = Some pushed ->
  pushed = track \/
  exists k, In (k, trackBoneName pushed) modelBones /\
            trackProperty pushed = trackProperty track.
Proof.
  intros Hpush.
  destruct (processTrack_pushed modelBones baseFormat stripPosition track
              pushed Hpush) as [_ [_ [Hsame | [k [v [Hin Hname]]]]]];
    [now left | right].
  destruct pushed as [name ts vs]. cbn [trackName] in Hname. subst name.
  destruct (track_split_facts track) as [Hnd _].
  destruct (split_address v (trackProperty track) ts vs Hnd) as [Hb Hp].
  exists k. rewrite Hb, Hp. split; [exact Hin | reflexivity].
Qed.

Lemma processTrack_address_parses_witness :
  mkTrack "Character_Hips.quaternion" [0] [0; 0; 0; 1]%R
  = mkTrack "hips.quaternion" [0] [0; 0; 0; 1]%R \/
  exists k,
    In (k, trackBoneName
             (mkTrack "Character_Hips.quaternion" [0] [0; 0; 0; 1]%R))
       hipsMap /\
    trackProperty (mkTrack "Character_Hips.quaternion" [0] [0; 0; 0; 1]%R)
    = trackProperty (mkTrack "hips.quaternion" [0] [0; 0; 0; 1]%R).
Proof.
  apply (processTrack_address_parses GLB hipsMap true).
  reflexivity.
Defined.

(** X30: a clip authored on the model's own skeleton finds its bones: for
    every bone of the model whose canonical key is not empty, the matcher,
    asked for that key on the model's bone map, answers with a bone of the
    same key. *)
Theorem findBoneFuzzy_own_bones (model : Object3D) (b : Object3D) :
  In b (traverse model) -> objType b = "Bone" ->
  normalizeBoneName (objName b) <> "" ->
  exists v,
    findBoneFuzzy (buildBoneMap model) (normalizeBoneName (objName b))
    = Some v /\
    normalizeBoneName v = normalizeBoneName (objName b).
Proof.
  intros Hin Hb Hkey.
  destruct (buildBoneMapWith_covers normalizeBoneName model b Hin Hb)
    as [v [Hget Hk]].
  exists v. split; [| exact Hk].
  apply findBoneFuzzy_exact; [exact Hget |].
  unfold truthy. apply negb_true_iff, String.eqb_neq.
  intros ->. apply Hkey. rewrite <- Hk. reflexivity.
Qed.

Lemma findBoneFuzzy_own_bones_witness :
  exists v,
    findBoneFuzzy (buildBoneMap twoHipsModel) "hips" = Some v /\
    normalizeBoneName v = "hips".
Proof.
  apply (findBoneFuzzy_own_bones twoHipsModel (Obj "Bone" "Hips" [])).
  - right. right. left. reflexivity.
  - reflexivity.
  - discriminate.
Defined.
